(** * Coinmon: the transformation pipeline of [src/index.js] and the
      validators of [src/validation.js]

    The development embeds the JavaScript program shallowly:
    - JavaScript values are a small tagged union ([val]); objects such
      as the records returned by the quote source are finite maps from
      property names to values;
    - numbers are exact decimals [m * 10^e] together with [NaN] and the
      two infinities.  Every decimal of at most 15 significant digits is
      read and printed by an IEEE-754 double exactly as by this model;
      longer decimals are rounded by a real engine and are kept exact
      here.  The sign of a difference, on which the sort comparator
      relies, is the same in both.  Negative zero is identified with
      zero (the program never divides);
    - strings are sequences of 8-bit characters and the case conversions
      are those of ASCII;
    - an exception thrown inside the promise callback is an explicit
      result ([TypeError]); [process.exit] is an explicit outcome ([Exit]);
    - what the host provides (the collation behind [localeCompare], the
      [humanize-plus] formatter, whether [colors] styles its output, and
      the algorithm of [Array.prototype.sort]) is an interface,
      [Host], with the part of ECMAScript's contract for [sort] that the
      program relies on. *)

From Stdlib Require Import ZArith Ascii String Sorted OrderedTypeEx.
From stdpp Require Import base gmap strings list sorting.

Local Open Scope Z_scope.

(** ** Strings *)

Module JsString.

Definition code (c : ascii) : Z := Z.of_N (N_of_ascii c).

Definition isUpper (c : ascii) : bool := (65 <=? code c) && (code c <=? 90).
Definition isLower (c : ascii) : bool := (97 <=? code c) && (code c <=? 122).

Definition lowerChar (c : ascii) : ascii :=
  if isUpper c then ascii_of_N (N_of_ascii c + 32) else c.
Definition upperChar (c : ascii) : ascii :=
  if isLower c then ascii_of_N (N_of_ascii c - 32) else c.

(** [String.prototype.toLowerCase] and [toUpperCase]. *)
Fixpoint toLowerCase (s : string) : string :=
  match s with
  | EmptyString => EmptyString
  | String c s' => String (lowerChar c) (toLowerCase s')
  end.

Fixpoint toUpperCase (s : string) : string :=
  match s with
  | EmptyString => EmptyString
  | String c s' => String (upperChar c) (toUpperCase s')
  end.

(** [s.split(',')]: the pieces between the separators; never empty. *)
Fixpoint splitOn (sep : ascii) (s : string) : list string :=
  match s with
  | EmptyString => [EmptyString]
  | String c s' =>
      if Ascii.eqb c sep then EmptyString :: splitOn sep s'
      else match splitOn sep s' with
           | [] => [String c EmptyString]
           | p :: ps => String c p :: ps
           end
  end.

(** The relation [<] of two strings: code units compared in order. *)
Definition ltb (a b : string) : bool :=
  match String.compare a b with Lt => true | _ => false end.

End JsString.

(** ** Numbers *)

Inductive number : Type :=
| NaN
| Infinity (negative : bool)
| Finite (m e : Z).

Module Num.

(** Trailing zeros of the mantissa move into the exponent. *)
Fixpoint strip (fuel : nat) (m e : Z) : Z * Z :=
  match fuel with
  | O => (m, e)
  | S fuel' =>
      if (m =? 0) then (0, 0)
      else if (m mod 10 =? 0) then strip fuel' (m / 10) (e + 1)
      else (m, e)
  end.

Definition normal (m e : Z) : Z * Z :=
  strip (S (Z.to_nat (Z.log2 (Z.abs m)))) m e.

Definition finite (m e : Z) : number :=
  let '(m', e') := normal m e in Finite m' e'.

Definition ofZ (z : Z) : number := finite z 0.

(** Two decimals on a common exponent. *)
Definition align (m1 e1 m2 e2 : Z) : Z * Z * Z :=
  let e := Z.min e1 e2 in
  (m1 * 10 ^ (e1 - e), m2 * 10 ^ (e2 - e), e).

Definition compare (a b : number) : option comparison :=
  match a, b with
  | NaN, _ | _, NaN => None
  | Infinity s1, Infinity s2 =>
      Some (match s1, s2 with
            | true, false => Lt
            | false, true => Gt
            | _, _ => Eq
            end)
  | Infinity s, Finite _ _ => Some (if s then Lt else Gt)
  | Finite _ _, Infinity s => Some (if s then Gt else Lt)
  | Finite m1 e1, Finite m2 e2 =>
      let '(x, y, _) := align m1 e1 m2 e2 in Some (x ?= y)
  end.

(** The relational operators; every comparison with [NaN] is false. *)
Definition ltb (a b : number) : bool :=
  match compare a b with Some Lt => true | _ => false end.
Definition gtb (a b : number) : bool := ltb b a.
Definition geb (a b : number) : bool :=
  match compare a b with Some Gt | Some Eq => true | _ => false end.

(** [===] on numbers. *)
Definition eqb (a b : number) : bool :=
  match compare a b with Some Eq => true | _ => false end.

Definition isNaN (a : number) : bool :=
  match a with NaN => true | _ => false end.

Definition isZero (a : number) : bool :=
  match a with Finite m _ => m =? 0 | _ => false end.

(** [ToBoolean] of a number. *)
Definition truthy (a : number) : bool := negb (isNaN a) && negb (isZero a).

Definition neg (a : number) : number :=
  match a with
  | NaN => NaN
  | Infinity s => Infinity (negb s)
  | Finite m e => Finite (- m) e
  end.

Definition add (a b : number) : number :=
  match a, b with
  | NaN, _ | _, NaN => NaN
  | Infinity s1, Infinity s2 => if Bool.eqb s1 s2 then Infinity s1 else NaN
  | Infinity s, Finite _ _ | Finite _ _, Infinity s => Infinity s
  | Finite m1 e1, Finite m2 e2 =>
      let '(x, y, e) := align m1 e1 m2 e2 in finite (x + y) e
  end.

Definition sub (a b : number) : number := add a (neg b).

Definition mul (a b : number) : number :=
  match a, b with
  | NaN, _ | _, NaN => NaN
  | Infinity s1, Infinity s2 => Infinity (xorb s1 s2)
  | Infinity s, Finite m _ | Finite m _, Infinity s =>
      if m =? 0 then NaN else Infinity (xorb s (m <? 0))
  | Finite m1 e1, Finite m2 e2 => finite (m1 * m2) (e1 + e2)
  end.

(** The sign a sort reads off a comparator's result: [NaN] counts as
    zero. *)
Definition sgn (a : number) : Z :=
  match a with
  | NaN => 0
  | Infinity s => if s then -1 else 1
  | Finite m _ => Z.sgn m
  end.

(** The integer a number denotes, when it denotes one. *)
Definition toInteger (a : number) : option Z :=
  match a with
  | Finite m e =>
      let '(m', e') := normal m e in
      if 0 <=? e' then Some (m' * 10 ^ e') else None
  | _ => None
  end.

(** *** Printing *)

Definition digitChar (d : Z) : ascii := ascii_of_N (Z.to_N (48 + d)).

Fixpoint digitsAux (fuel : nat) (z : Z) (acc : list ascii) : list ascii :=
  match fuel with
  | O => acc
  | S fuel' =>
      if z <? 10 then digitChar z :: acc
      else digitsAux fuel' (z / 10) (digitChar (z mod 10) :: acc)
  end.

(** The decimal digits of a non-negative integer. *)
Definition digits (z : Z) : list ascii :=
  digitsAux (S (Z.to_nat (Z.log2 z))) z [].

Definition zeros (n : Z) : list ascii := replicate (Z.to_nat n) "0"%char.

Definition str (l : list ascii) : string := string_of_list_ascii l.

(** [Number::toString] in radix 10.  With [k] digits [s] and
    [x = s * 10^(n-k)], the four layouts of the language definition. *)
Definition toString (a : number) : string :=
  match a with
  | NaN => "NaN"
  | Infinity s => if s then "-Infinity" else "Infinity"
  | Finite m e =>
      let '(m', e') := normal m e in
      if m' =? 0 then "0"
      else
        let ds := digits (Z.abs m') in
        let k := Z.of_nat (length ds) in
        let n := k + e' in
        let body :=
          if (k <=? n) && (n <=? 21) then ds ++ zeros (n - k)
          else if (0 <? n) && (n <=? 21) then
            take (Z.to_nat n) ds ++ "."%char :: drop (Z.to_nat n) ds
          else if (-6 <? n) && (n <=? 0) then
            "0"%char :: "."%char :: zeros (- n) ++ ds
          else
            let ex := (if n - 1 <? 0 then "-"%char else "+"%char)
                        :: digits (Z.abs (n - 1)) in
            match ds with
            | [d] => d :: "e"%char :: ex
            | d :: ds' => d :: "."%char :: ds' ++ "e"%char :: ex
            | [] => []
            end
        in
        str (if m' <? 0 then "-"%char :: body else body)
  end.

(** [Number.prototype.toFixed(f)]: the nearest multiple of [10^-f],
    the larger one on a tie. *)
Definition toFixed (a : number) (f : Z) : string :=
  match a with
  | Finite m e =>
      if geb (Finite (Z.abs m) e) (Finite 1 21) then toString a
      else
        let sh := e + f in
        let n :=
          if 0 <=? sh then Z.abs m * 10 ^ sh
          else (2 * Z.abs m + 10 ^ (- sh)) / (2 * 10 ^ (- sh)) in
        let ds := digits n in
        let ds := zeros (f + 1 - Z.of_nat (length ds)) ++ ds in
        let k := (length ds - Z.to_nat f)%nat in
        let body :=
          if f =? 0 then ds else take k ds ++ "."%char :: drop k ds in
        str (if m <? 0 then "-"%char :: body else body)
  | _ => toString a
  end.

(** *** Reading *)

Definition isDigit (c : ascii) : bool :=
  (48 <=? JsString.code c) && (JsString.code c <=? 57).

Definition isSpace (c : ascii) : bool :=
  let n := JsString.code c in
  ((9 <=? n) && (n <=? 13)) || (n =? 32).

Fixpoint span (p : ascii -> bool) (l : list ascii) : list ascii * list ascii :=
  match l with
  | c :: l' =>
      if p c then let '(a, b) := span p l' in (c :: a, b) else ([], l)
  | [] => ([], [])
  end.

Definition digitsValue (ds : list ascii) : Z :=
  fold_left (fun acc c => 10 * acc + (JsString.code c - 48)) ds 0.

(** An exponent part at the head of [l], if there is a whole one. *)
Definition exponentPart (l : list ascii) : option (Z * list ascii) :=
  match l with
  | c :: l1 =>
      if Ascii.eqb c "e" || Ascii.eqb c "E" then
        let '(sign, l2) :=
          match l1 with
          | s :: l2 =>
              if Ascii.eqb s "-" then (-1, l2)
              else if Ascii.eqb s "+" then (1, l2)
              else (1, l1)
          | [] => (1, l1)
          end in
        let '(ds, rest) := span isDigit l2 in
        match ds with
        | [] => None
        | _ => Some (sign * digitsValue ds, rest)
        end
      else None
  | [] => None
  end.

Definition withExponent (ds : list ascii) (e : Z) (rest : list ascii)
  : number * list ascii :=
  match exponentPart rest with
  | Some (x, rest') => (finite (digitsValue ds) (e + x), rest')
  | None => (finite (digitsValue ds) e, rest)
  end.

Definition infinityWord : list ascii := list_ascii_of_string "Infinity".

Fixpoint stripPrefix (p l : list ascii) : option (list ascii) :=
  match p, l with
  | [], _ => Some l
  | a :: p', b :: l' => if Ascii.eqb a b then stripPrefix p' l' else None
  | _ :: _, [] => None
  end.

(** The longest prefix that is an unsigned decimal literal. *)
Definition unsignedDecimal (l : list ascii) : option (number * list ascii) :=
  match stripPrefix infinityWord l with
  | Some rest => Some (Infinity false, rest)
  | None =>
      let '(ip, r1) := span isDigit l in
      match r1 with
      | c :: r2 =>
          if Ascii.eqb c "." then
            let '(fp, r3) := span isDigit r2 in
            match ip, fp with
            | [], [] => None
            | _, _ =>
                Some (withExponent (ip ++ fp) (- Z.of_nat (length fp)) r3)
            end
          else
            match ip with
            | [] => None
            | _ => Some (withExponent ip 0 r1)
            end
      | [] =>
          match ip with
          | [] => None
          | _ => Some (finite (digitsValue ip) 0, [])
          end
      end
  end.

(** The longest prefix that is a signed decimal literal. *)
Definition signedDecimal (l : list ascii) : option (number * list ascii) :=
  match l with
  | c :: l' =>
      if Ascii.eqb c "-" then
        match unsignedDecimal l' with
        | Some (x, rest) => Some (neg x, rest)
        | None => None
        end
      else if Ascii.eqb c "+" then unsignedDecimal l'
      else unsignedDecimal l
  | [] => None
  end.

Definition radixDigit (radix : Z) (c : ascii) : option Z :=
  let n := JsString.code c in
  let d :=
    if isDigit c then n - 48
    else if (97 <=? n) && (n <=? 102) then n - 87
    else if (65 <=? n) && (n <=? 70) then n - 55
    else 99 in
  if d <? radix then Some d else None.

Fixpoint radixValue (radix : Z) (l : list ascii) (acc : Z) : option Z :=
  match l with
  | [] => Some acc
  | c :: l' =>
      match radixDigit radix c with
      | Some d => radixValue radix l' (radix * acc + d)
      | None => None
      end
  end.

(** [0x], [0o] and [0b] literals. *)
Definition nonDecimal (l : list ascii) : option number :=
  match l with
  | z :: r :: (d :: _) as ds =>
      if Ascii.eqb z "0" then
        let radix :=
          if Ascii.eqb r "x" || Ascii.eqb r "X" then 16
          else if Ascii.eqb r "o" || Ascii.eqb r "O" then 8
          else if Ascii.eqb r "b" || Ascii.eqb r "B" then 2
          else 0 in
        if radix =? 0 then None
        else match radixValue radix ds 0 with
             | Some v => Some (finite v 0)
             | None => None
             end
      else None
  | _ => None
  end.

Definition trimStart (l : list ascii) : list ascii := (span isSpace l).2.
Definition trim (l : list ascii) : list ascii :=
  rev (trimStart (rev (trimStart l))).

(** [StringToNumber]: the whole trimmed text must be a numeric
    literal; the empty text is zero. *)
Definition ofString (s : string) : number :=
  let l := trim (list_ascii_of_string s) in
  match l with
  | [] => Finite 0 0
  | _ =>
      match nonDecimal l with
      | Some x => x
      | None =>
          match signedDecimal l with
          | Some (x, []) => x
          | _ => NaN
          end
      end
  end.

(** [parseFloat] of a string: the longest decimal prefix after leading
    white space. *)
Definition parseFloat (s : string) : number :=
  match signedDecimal (trimStart (list_ascii_of_string s)) with
  | Some (x, _) => x
  | None => NaN
  end.

End Num.

(** ** Values and objects *)

Inductive val : Type :=
| VUndefined
| VNull
| VBool (b : bool)
| VNum (n : number)
| VStr (s : string).

(** [ToBoolean]. *)
Definition truthy (v : val) : bool :=
  match v with
  | VUndefined | VNull => false
  | VBool b => b
  | VNum n => Num.truthy n
  | VStr s => negb (String.eqb s "")
  end.

(** [ToNumber], written [+v] in the source. *)
Definition ToNumber (v : val) : number :=
  match v with
  | VUndefined => NaN
  | VNull => Finite 0 0
  | VBool b => if b then Finite 1 0 else Finite 0 0
  | VNum n => n
  | VStr s => Num.ofString s
  end.

(** [ToString], as a template literal applies it. *)
Definition ToString (v : val) : string :=
  match v with
  | VUndefined => "undefined"
  | VNull => "null"
  | VBool b => if b then "true" else "false"
  | VNum n => Num.toString n
  | VStr s => s
  end.

(** [a && b] and [a || b]; the right operand is passed unevaluated. *)
Definition and_then (a b : val) : val := if truthy a then b else a.
Definition or_else (a b : val) : val := if truthy a then a else b.

(** The global [isNaN]. *)
Definition isNaN (v : val) : bool := Num.isNaN (ToNumber v).

(** The global [parseFloat]. *)
Definition parseFloat (v : val) : number := Num.parseFloat (ToString v).

(** Reading a property: a missing one reads [undefined]. *)
Definition get (o : gmap string val) (k : string) : val :=
  default VUndefined (o !! k).

(** [a[i]] on an array: an element when [i] is an index of [a],
    [undefined] otherwise. *)
Definition at_index (a : list val) (i : number) : val :=
  match Num.toInteger i with
  | Some z => if 0 <=? z then default VUndefined (a !! Z.to_nat z) else VUndefined
  | None => VUndefined
  end.

(** ** Exceptions and process exit *)

(** What evaluating code inside the promise callback gives: a value, or
    a [TypeError] that the [catch] handler receives. *)
Inductive result (A : Type) : Type :=
| Ok (a : A)
| TypeError.
Arguments Ok {A} a.
Arguments TypeError {A}.

#[global] Instance result_ret : MRet result := fun _ a => Ok a.
#[global] Instance result_bind : MBind result := fun _ _ k r =>
  match r with
  | Ok a => k a
  | TypeError => TypeError
  end.

(** [Array.prototype.map] and [filter] with a callback that may throw:
    elements are visited in order and the first exception ends the call. *)
Fixpoint mapM {A B} (f : A -> result B) (l : list A) : result (list B) :=
  match l with
  | [] => Ok []
  | a :: l' => b ← f a; bs ← mapM f l'; Ok (b :: bs)
  end.

Fixpoint filterM {A} (p : A -> result bool) (l : list A) : result (list A) :=
  match l with
  | [] => Ok []
  | a :: l' =>
      keep ← p a; rest ← filterM p l';
      Ok (if keep : bool then a :: rest else rest)
  end.

(** [Array.prototype.some]: stops at the first element that satisfies
    the callback. *)
Fixpoint someM {A} (p : A -> result bool) (l : list A) : result bool :=
  match l with
  | [] => Ok false
  | a :: l' => b ← p a; if b : bool then Ok true else someM p l'
  end.

(** What a validator gives: its value, or the line it printed before
    [process.exit()]. *)
Inductive outcome (A : Type) : Type :=
| Return (a : A)
| Exit (printed : string).
Arguments Return {A} a.
Arguments Exit {A} printed.

(** ** The host *)

(** The sign a sort reads off [cmp a b]: none when the call throws or
    gives [NaN]. *)
Definition signOf {A} (cmp : A -> A -> result number) (a b : A) : option Z :=
  match cmp a b with
  | Ok n => if Num.isNaN n then None else Some (Num.sgn n)
  | TypeError => None
  end.

(** A consistent comparator for the elements of [l], after the language
    definition of [Array.prototype.sort]. *)
Record consistent {A} (cmp : A -> A -> result number) (l : list A) : Prop := {
  cons_total : forall a b, a ∈ l -> b ∈ l -> is_Some (signOf cmp a b);
  cons_refl : forall a, a ∈ l -> signOf cmp a a = Some 0;
  cons_sym : forall a b, a ∈ l -> b ∈ l ->
    signOf cmp a b = Some 0 -> signOf cmp b a = Some 0;
  cons_trans : forall s a b c, a ∈ l -> b ∈ l -> c ∈ l ->
    signOf cmp a b = Some s -> signOf cmp b c = Some s ->
    signOf cmp a c = Some s
}.

(** [a] may stand before [b] in a sorted array. *)
Definition ordered {A} (cmp : A -> A -> result number) (a b : A) : Prop :=
  exists s, signOf cmp a b = Some s /\ s <= 0.

Inductive style : Type := Yellow | Green | Red | Bold.

Class Host : Type := {
  (** whether the [colors] package styles strings on this terminal *)
  colorsEnabled : bool;
  (** [String.prototype.localeCompare] in the host's default locale *)
  localeCompare : string -> string -> number;
  (** [humanize.compactInteger] of the [humanize-plus] package *)
  compactInteger : val -> Z -> string;
  (** [Array.prototype.sort] with a comparator *)
  arraySort : forall {A : Type}, (A -> A -> result number) -> list A -> result (list A);
  (** with a consistent comparator the array is permuted into order *)
  arraySort_sorts : forall (A : Type) (cmp : A -> A -> result number) (l : list A),
    consistent cmp l ->
    exists l', arraySort cmp l = Ok l' /\ l ≡ₚ l' /\ StronglySorted (ordered cmp) l'
}.

(** ** [src/validation.js] and the helpers of [src/index.js] *)

Section Program.
Context `{Host}.

Definition escape (code : string) : string :=
  String (ascii_of_nat 27) ("[" +:+ code +:+ "m").

(** The string getters the [colors] package adds: [s.yellow] etc. *)
Definition styled (c : style) (s : string) : string :=
  if colorsEnabled then
    match c with
    | Yellow => escape "33" +:+ s +:+ escape "39"
    | Green => escape "32" +:+ s +:+ escape "39"
    | Red => escape "31" +:+ s +:+ escape "39"
    | Bold => escape "1" +:+ s +:+ escape "22"
    end
  else s.

Definition validateNumber (value : val) : outcome number :=
  if isNaN value && Num.geb (ToNumber value) (Finite 0 0) then
    Exit (styled Red "Please input a valid parameter.")
  else Return (ToNumber value).

Definition availableCurrencies : list string :=
  ["USD"; "AUD"; "BRL"; "CAD"; "CHF"; "CLP"; "CNY"; "CZK"; "DKK"; "EUR";
   "GBP"; "HKD"; "HUF"; "IDR"; "ILS"; "INR"; "JPY"; "KRW"; "MXN"; "MYR";
   "NOK"; "NZD"; "PHP"; "PKR"; "PLN"; "RUB"; "SEK"; "SGD"; "THB"; "TRY";
   "TWD"; "ZAR"; "BTC"].

Definition validateConvertCurrency (value : string) : outcome string :=
  let convert := JsString.toUpperCase value in
  if bool_decide (convert ∈ availableCurrencies) then Return convert
  else Exit (styled Red "We cannot convert to your currency.").

(** [list]: the comma separated pieces of a non-empty argument. *)
Definition list_ (value : string) : list string :=
  if String.eqb value "" then [] else JsString.splitOn "," value.

Definition getColoredChangeValueText (value : val) : val :=
  let text := ToString value +:+ "%" in
  or_else
    (and_then value
       (VStr (if Num.gtb (ToNumber value) (Finite 0 0)
              then styled Green text else styled Red text)))
    (VStr "NA").

End Program.

(** ** [src/index.js]: options and the constants derived from them *)

(** The properties of [program] after [parse]. *)
Record options : Type := {
  opt_convert : string;
  opt_find : list string;
  opt_top : number;
  opt_portfolio : val;
  opt_specific : list string;
  opt_rank : number
}.

(** The command line: for each option the argument it was given, if the
    option is present.  [--portfolio] may come without a path. *)
Record argv : Type := {
  arg_convert : option string;
  arg_find : option string;
  arg_top : option string;
  arg_portfolio : option (option string);
  arg_specific : option string;
  arg_rank : option string
}.

#[global] Instance outcome_ret : MRet outcome := fun _ a => Return a.
#[global] Instance outcome_bind : MBind outcome := fun _ _ k r =>
  match r with
  | Return a => k a
  | Exit printed => Exit printed
  end.

Section Options.
Context `{Host}.

(** An option that is present goes through its coercion function; an
    absent one takes the default it was declared with. *)
Definition coerce {A} (f : string -> outcome A) (default : A)
    (arg : option string) : outcome A :=
  match arg with
  | Some value => f value
  | None => Return default
  end.

Definition parse (args : argv) : outcome options :=
  convert ← coerce validateConvertCurrency "USD"%string (arg_convert args);
  find ← coerce (fun v => Return (list_ v)) [] (arg_find args);
  top ← coerce (fun v => validateNumber (VStr v)) (Num.ofZ 10) (arg_top args);
  specific ← coerce (fun v => Return (list_ v)) [] (arg_specific args);
  rank ← coerce (fun v => validateNumber (VStr v)) (Num.ofZ 0) (arg_rank args);
  Return {| opt_convert := convert;
            opt_find := find;
            opt_top := top;
            opt_portfolio :=
              match arg_portfolio args with
              | None => VUndefined
              | Some None => VBool true
              | Some (Some path) => VStr path
              end;
            opt_specific := specific;
            opt_rank := rank |}.

End Options.

Section Pipeline.
Context `{Host}.

(** The parsed options, and the object read from the portfolio file
    (its own properties, with scalar values). *)
Variable program : options.
Variable portfolioCoins : gmap string val.

Definition convert : string := JsString.toUpperCase (opt_convert program).
Definition marketcapConvert : string :=
  if String.eqb convert "BTC" then "USD" else convert.
Definition find : list string := opt_find program.
Definition portfolio : val := opt_portfolio program.
Definition top : number :=
  if (0 <? length find)%nat || truthy portfolio then Num.ofZ 1500
  else opt_top program.
Definition column : list string := opt_specific program.
Definition rank : number := opt_rank program.

Definition defaultHeader : list val :=
  map (fun title => VStr (styled Yellow title))
    ["Rank"; "Coin"; "Price " +:+ convert; "Change 1H"; "Change 24H";
     "Change 7D"; "Market Cap " +:+ marketcapConvert]
  ++ (if truthy portfolio
      then [VStr (styled Yellow "Balance");
            VStr (styled Yellow "Estimated Value")]
      else []).

Definition defaultColumns : list number :=
  map (fun index => Num.ofZ (Z.of_nat index)) (seq 0 (length defaultHeader)).

Definition columns : list number :=
  if (0 <? length column)%nat then
    List.filter
      (fun index =>
         negb (Num.isNaN index)
         && Num.ltb index (Num.ofZ (Z.of_nat (length defaultHeader))))
      (map (fun index => ToNumber (VStr index)) column)
  else defaultColumns.

(** The comparison [sort()] applies when it is given no comparator:
    the operands are compared as strings. *)
Definition defaultCompare (x y : number) : result number :=
  let xString := Num.toString x in
  let yString := Num.toString y in
  Ok (if JsString.ltb xString yString then Finite (-1) 0
      else if JsString.ltb yString xString then Finite 1 0
      else Finite 0 0).

Definition sortedColumns : result (list number) :=
  arraySort defaultCompare columns.

Definition header : result (list val) :=
  sortedColumns ← sortedColumns;
  Ok (map (fun index => at_index defaultHeader index) sortedColumns).

Definition sourceUrl : string :=
  "https://api.coinmarketcap.com/v1/ticker/?limit=" +:+ Num.toString top
    +:+ "&convert=" +:+ convert.
Definition priceKey : string := JsString.toLowerCase ("price_" +:+ convert).
Definition marketCapKey : string :=
  JsString.toLowerCase ("market_cap_" +:+ marketcapConvert).
Definition volume24hKey : string :=
  JsString.toLowerCase ("24h_volume_" +:+ marketcapConvert).

Definition keysMap : gmap string val :=
  let base : gmap string val :=
    <["6" := VStr marketCapKey]>
      (<["5" := VStr "percent_change_7d"]>
         (<["4" := VStr "percent_change_24h"]>
            (<["3" := VStr "percent_change_1h"]>
               (<["2" := VStr priceKey]>
                  (<["1" := VStr "symbol"]>
                     (<["0" := VStr "rank"]> ∅)))))) in
  if truthy portfolio then
    let n := Z.of_nat (length defaultHeader) in
    <[Num.toString (Num.ofZ n) := VStr "portfolio_estimated_value"]>
      (<[Num.toString (Num.ofZ (n - 1)) := VStr "portfolio_balance"]> base)
  else base.

(** *** The promise callback, stage by stage *)

(** [record.symbol.toLowerCase()]: a [TypeError] unless the symbol is a
    string. *)
Definition symbolLower (record : gmap string val) : result string :=
  match get record "symbol" with
  | VStr s => Ok (JsString.toLowerCase s)
  | _ => TypeError
  end.

Definition matches (record : gmap string val) (keyword : string) : result bool :=
  s ← symbolLower record;
  Ok (String.eqb s (JsString.toLowerCase keyword)).

(** The callback of [filter]. *)
Definition keep (record : gmap string val) : result bool :=
  if truthy portfolio then
    someM (matches record) (map fst (map_to_list portfolioCoins))
  else if (0 <? length find)%nat then
    someM (matches record) find
  else Ok true.

Definition filterStage (data : list (gmap string val))
  : result (list (gmap string val)) :=
  filterM keep data.

(** [record[k] && +record[k]] *)
Definition numberOrFalsy (record : gmap string val) (k : string) : val :=
  and_then (get record k) (VNum (ToNumber (get record k))).

(** The callback of the first [map]. *)
Definition editedRecord (record : gmap string val) : result (gmap string val) :=
  let editedRecord : gmap string val :=
    <["last_updated" := get record "last_updated"]>
      (<["percent_change_7d" := numberOrFalsy record "percent_change_7d"]>
      (<["percent_change_24h" := numberOrFalsy record "percent_change_24h"]>
      (<["percent_change_1h" := numberOrFalsy record "percent_change_1h"]>
      (<["max_supply" := numberOrFalsy record "max_supply"]>
      (<["total_supply" := numberOrFalsy record "total_supply"]>
      (<["available_supply" := numberOrFalsy record "available_supply"]>
      (<["rank" := numberOrFalsy record "rank"]>
      (<["symbol" := get record "symbol"]>
      (<["name" := get record "name"]> ∅))))))))) in
  let editedRecord := <[priceKey := numberOrFalsy record priceKey]> editedRecord in
  let editedRecord := <[volume24hKey := numberOrFalsy record volume24hKey]> editedRecord in
  let editedRecord := <[marketCapKey := numberOrFalsy record marketCapKey]> editedRecord in
  if truthy portfolio then
    s ← symbolLower record;
    let portfolioGross :=
      Num.mul (ToNumber (get portfolioCoins s)) (parseFloat (get record priceKey)) in
    Ok (<["portfolio_estimated_value" := VNum portfolioGross]>
          (<["portfolio_balance" := get portfolioCoins s]> editedRecord))
  else Ok editedRecord.

(** The comparator given to [sort]. *)
Definition comparator (recordA recordB : gmap string val) : result number :=
  let compareKey := get keysMap (Num.toString rank) in
  if Num.eqb rank (Finite 0 0) || negb (truthy compareKey) then
    Ok (Finite (-1) 0)
  else if Num.eqb rank (Finite 1 0) then
    match get recordA (ToString compareKey) with
    | VStr a => Ok (localeCompare a (ToString (get recordB (ToString compareKey))))
    | _ => TypeError
    end
  else
    Ok (Num.sub (ToNumber (get recordB (ToString compareKey)))
                (ToNumber (get recordA (ToString compareKey)))).

Definition sortStage (records : list (gmap string val))
  : result (list (gmap string val)) :=
  arraySort comparator records.

(** The array [defaultValues] of the second [map]. *)
Definition defaultValues (record : gmap string val) : result (list val) :=
  let marketCap := get record marketCapKey in
  let displayedMarketCap :=
    or_else (and_then marketCap (VStr (compactInteger marketCap 3)))
            (VStr "NA") in
  let defaultValues :=
    [get record "rank";
     get record "symbol";
     get record priceKey;
     getColoredChangeValueText (get record "percent_change_1h");
     getColoredChangeValueText (get record "percent_change_24h");
     getColoredChangeValueText (get record "percent_change_7d");
     displayedMarketCap] in
  if truthy portfolio then
    match get record "portfolio_estimated_value" with
    | VNum n =>
        let portfolioGross := Num.toFixed n 2 in
        Ok (defaultValues ++ [get record "portfolio_balance"; VStr portfolioGross])
    | _ => TypeError
    end
  else Ok defaultValues.

(** The callback of the second [map], given the value of
    [sortedColumns]. *)
Definition values (sortedColumns : list number) (record : gmap string val)
  : result (list val) :=
  defaultValues ← defaultValues record;
  Ok (map (fun index => at_index defaultValues index) sortedColumns).

(** The total the second [map] accumulates in [portfolioSum]. *)
Definition portfolioSum (records : list (gmap string val)) : number :=
  foldl (fun portfolioSum record =>
           match get record "portfolio_estimated_value" with
           | VNum n => Num.add portfolioSum (Num.parseFloat (Num.toFixed n 2))
           | _ => portfolioSum
           end)
        (Finite 0 0) records.

(** The rows pushed to the table for a response [data]. *)
Definition rows (data : list (gmap string val)) : result (list (list val)) :=
  sortedColumns ← sortedColumns;
  filtered ← filterStage data;
  edited ← mapM editedRecord filtered;
  sorted ← sortStage edited;
  mapM (values sortedColumns) sorted.

End Pipeline.

(** ** [Array.prototype.sort] in V8

    Since Node 11 the engine sorts with the run-detecting insertion and
    merge sort of its [array-sort.tq].  An array shorter than 64
    elements is one forced run: [CountAndMakeRun] finds the initial run,
    reversing it when it descends, and [BinaryInsertionSort] inserts the
    remaining elements.  These two phases are modelled.  On longer
    arrays the engine cuts several runs and merges them; that part is
    left out, and what is proved of orderly sorting below is proved for
    every [Host]. *)

Module V8.
Section Sort.
Context {A : Type} (comparefn : A -> A -> result number).

(** The comparator's result as a sign; [NaN] counts as zero. *)
Definition Compare (x y : A) : result Z :=
  v ← comparefn x y; Ok (Num.sgn v).

(** The loop of [CountAndMakeRun] from the third element on. *)
Fixpoint runLoop (isDescending : bool) (previousElement : A)
    (rest : list A) (runLength : nat) : result nat :=
  match rest with
  | [] => Ok runLength
  | currentElement :: rest' =>
      order ← Compare currentElement previousElement;
      if (if isDescending then 0 <=? order else order <? 0)
      then Ok runLength
      else runLoop isDescending currentElement rest' (S runLength)
  end.

(** The length of the run at the start of the array, and the array
    with that run made ascending. *)
Definition CountAndMakeRun (workArray : list A) : result (nat * list A) :=
  match workArray with
  | elementHigh :: elementLow :: rest =>
      order ← Compare elementLow elementHigh;
      let isDescending := order <? 0 in
      runLength ← runLoop isDescending elementLow rest 2;
      Ok (runLength,
          if isDescending
          then reverse (take runLength workArray) ++ drop runLength workArray
          else workArray)
  | _ => Ok (length workArray, workArray)
  end.

(** The binary search of [BinaryInsertionSort] for the place of
    [pivot] in the sorted part. *)
Fixpoint search (fuel : nat) (workArray : list A) (pivot : A)
    (left right : nat) : result nat :=
  match fuel with
  | O => Ok left
  | S fuel' =>
      if (left <? right)%nat then
        let mid := (left + Nat.div2 (right - left))%nat in
        match workArray !! mid with
        | Some x =>
            order ← Compare pivot x;
            if order <? 0 then search fuel' workArray pivot left mid
            else search fuel' workArray pivot (S mid) right
        | None => Ok left
        end
      else Ok left
  end.

(** [sorted] is the part of the array before [start]. *)
Fixpoint BinaryInsertionSort (sorted rest : list A) : result (list A) :=
  match rest with
  | [] => Ok sorted
  | pivot :: rest' =>
      left ← search (length sorted) sorted pivot 0 (length sorted);
      BinaryInsertionSort (take left sorted ++ pivot :: drop left sorted) rest'
  end.

Definition ArrayTimSortImpl (workArray : list A) : result (list A) :=
  if (length workArray <? 2)%nat then Ok workArray
  else
    '(runLength, workArray) ← CountAndMakeRun workArray;
    BinaryInsertionSort (take runLength workArray) (drop runLength workArray).

End Sort.
End V8.

(** ** Vocabulary of the properties *)

(** The sign of a comparison, zero where there is none. *)
Definition signOrZero {A} (cmp : A -> A -> result number) (a b : A) : Z :=
  default 0 (signOf cmp a b).

(** [a] may stand before [b], both being elements of the array [l]. *)
Definition mayPrecede {A} (cmp : A -> A -> result number) (l : list A)
    (a b : A) : Prop :=
  a ∈ l /\ b ∈ l /\ signOrZero cmp a b <= 0.

(** Two neighbours [p], [c] of a run, as [runLoop] tests them. *)
Definition runStep {A} (cmp : A -> A -> result number) (l : list A)
    (isDescending : bool) (p c : A) : Prop :=
  p ∈ l /\ c ∈ l
  /\ if isDescending then signOrZero cmp c p < 0 else 0 <= signOrZero cmp c p.

(** A collation for [localeCompare]: code units compared in order. *)
Definition codeUnitCompare (a b : string) : number :=
  match String.compare a b with
  | Lt => Finite (-1) 0
  | Eq => Finite 0 0
  | Gt => Finite 1 0
  end.

(** The fields the first [map] passes through [x && +x]. *)
Definition numericFields (program : options) : list string :=
  ["rank"; "available_supply"; "total_supply"; "max_supply";
   "percent_change_1h"; "percent_change_24h"; "percent_change_7d";
   priceKey program; volume24hKey program; marketCapKey program]%string.

(** The percent-change fields and the columns that show them. *)
Definition percentChangeColumns : list (string * nat) :=
  [("percent_change_1h", 3%nat); ("percent_change_24h", 4%nat);
   ("percent_change_7d", 5%nat)]%string.

(** The raw values the specification calls empty: zero, [null], the
    empty string, and a missing field. *)
Definition emptyRaw (v : val) : Prop :=
  v = VNum (Finite 0 0) \/ v = VNull \/ v = VStr "" \/ v = VUndefined.

(** The symbol of [record] equals [keyword] when letter case is
    ignored. *)
Definition sameSymbol (record : gmap string val) (keyword : string) : Prop :=
  exists s, get record "symbol" = VStr s
            /\ JsString.toLowerCase s = JsString.toLowerCase keyword.

(** The sign of the default comparison. *)
Definition defaultSign (x y : number) : Z :=
  match String.compare (Num.toString x) (Num.toString y) with
  | Lt => -1
  | Eq => 0
  | Gt => 1
  end.

(** A whole number from 0 to 8, as [sort()] and the array accesses see
    an index of the header. *)
Definition digitIndex (index : number) (z : Z) : Prop :=
  index = Finite z 0 /\ 0 <= z < 9.

(** An entry of [--specific] that the filter of [columns] drops: it is
    not a number, or it is not below the header length. *)
Definition droppedEntry `{Host} (program : options) (entry : string) : Prop :=
  isNaN (VStr entry) = true
  \/ Num.ltb (ToNumber (VStr entry))
       (Num.ofZ (Z.of_nat (length (defaultHeader program)))) = false.

(** [rank] selects no sort: it is zero, or [keysMap] has no key for
    it. *)
Definition noSortKey `{Host} (program : options) : bool :=
  Num.eqb (rank program) (Finite 0 0)
  || negb (truthy (get (keysMap program) (Num.toString (rank program)))).

(** The number a value denotes, on the exponent [E]. *)
Definition scaled (E : Z) (v : val) : Z :=
  match v with
  | VNum (Finite m e) => m * 10 ^ (e - E)
  | _ => 0
  end.

(** ** Sample data *)

(** The options of a run without arguments. *)
Definition noArguments : argv :=
  {| arg_convert := None; arg_find := None; arg_top := None;
     arg_portfolio := None; arg_specific := None; arg_rank := None |}.

Definition defaults : options :=
  {| opt_convert := "USD"; opt_find := []; opt_top := Num.ofZ 10;
     opt_portfolio := VUndefined; opt_specific := []; opt_rank := Num.ofZ 0 |}.

(** A record as the quote source sends it: every field a string. *)
Definition coin (rank symbol price change cap : string) : gmap string val :=
  <["market_cap_usd" := VStr cap]>
    (<["percent_change_24h" := VStr change]>
       (<["price_usd" := VStr price]>
          (<["symbol" := VStr symbol]>
             (<["name" := VStr symbol]>
                (<["rank" := VStr rank]> ∅))))).

(** A normalized record that holds a market cap. *)
Definition withCap (cap : Z) : gmap string val :=
  <["market_cap_usd"%string := VNum (Num.ofZ cap)]> ∅.

Definition rank6 : options :=
  {| opt_convert := "USD"; opt_find := []; opt_top := Num.ofZ 10;
     opt_portfolio := VUndefined; opt_specific := []; opt_rank := Num.ofZ 6 |}.

(** ** The end of the promise callback *)

(** What a run prints once the request is settled: the table, the line
    for an empty table, or the line of the [catch] handler. *)
Inductive report : Type :=
| Matches (table : list (list val))
| NoMatches (line : string)
| NotWorking (line : string).

Section Respond.
Context `{Host}.
Variable program : options.
Variable portfolioCoins : gmap string val.

(** [response] is the array the quote source answered with, if the
    request succeeded.  An exception of the callback reaches the
    [catch] handler like a failed request. *)
Definition respond (response : option (list (gmap string val))) : report :=
  match response with
  | Some data =>
      match rows program portfolioCoins data with
      | Ok [] =>
          NoMatches
            (styled Red "We are not able to find coins matching your keywords")
      | Ok table => Matches table
      | TypeError =>
          NotWorking
            (styled Red "Coinmon is not working now. Please try again later.")
      end
  | None =>
      NotWorking (styled Red "Coinmon is not working now. Please try again later.")
  end.

End Respond.

(** ** Further vocabulary *)

(** [Array.prototype.join]. *)
Fixpoint join (sep : string) (l : list string) : string :=
  match l with
  | [] => ""
  | [a] => a
  | a :: l' => a +:+ sep +:+ join sep l'
  end.

(** The character [c] occurs in [s]. *)
Fixpoint occurs (c : ascii) (s : string) : bool :=
  match s with
  | EmptyString => false
  | String a s' => Ascii.eqb a c || occurs c s'
  end.

(** The symbol of [record] is a string. *)
Definition hasSymbol (record : gmap string val) : Prop :=
  exists s, get record "symbol" = VStr s.

(** The keywords the filter compares symbols with: the names of the
    portfolio in portfolio mode, the find list otherwise. *)
Definition keywords (program : options) (portfolioCoins : gmap string val)
  : list string :=
  if truthy (portfolio program) then map fst (map_to_list portfolioCoins)
  else find program.

(** The program with another find list. *)
Definition withFind (program : options) (find : list string) : options :=
  {| opt_convert := opt_convert program; opt_find := find;
     opt_top := opt_top program; opt_portfolio := opt_portfolio program;
     opt_specific := opt_specific program; opt_rank := opt_rank program |}.

(** A run in portfolio mode. *)
Definition portfolioRun : options :=
  {| opt_convert := "USD"; opt_find := []; opt_top := Num.ofZ 10;
     opt_portfolio := VBool true; opt_specific := []; opt_rank := Num.ofZ 0 |}.

(** A run sorted by symbol. *)
Definition rank1 : options :=
  {| opt_convert := "USD"; opt_find := []; opt_top := Num.ofZ 10;
     opt_portfolio := VUndefined; opt_specific := []; opt_rank := Num.ofZ 1 |}.

(** * Properties *)

(** ** The modelled sort meets the contract of [Host] *)

Lemma Sorted_mono {A} (R S : A -> A -> Prop) (l : list A) :
  (forall a b, R a b -> S a b) -> Sorted R l -> Sorted S l.
Proof.
  intros HRS. induction 1 as [|x l Hs IH Hhd]; constructor; auto.
  destruct Hhd; constructor; auto.
Qed.

Lemma StronglySorted_mono {A} (R S : A -> A -> Prop) (l : list A) :
  (forall a b, R a b -> S a b) -> StronglySorted R l -> StronglySorted S l.
Proof.
  intros HRS. induction 1 as [|x l Hs IH Hall]; constructor; auto.
  eapply Forall_impl; eauto.
Qed.

Section SortCorrect.
Context {A : Type} (cmp : A -> A -> result number) (l : list A).
Hypothesis Hcons : consistent cmp l.

Local Abbreviation sg := (signOrZero cmp).
Local Abbreviation lel := (mayPrecede cmp l).
Local Abbreviation step := (runStep cmp l).

Lemma signOf_sg a b : a ∈ l -> b ∈ l -> signOf cmp a b = Some (sg a b).
Proof.
  intros Ha Hb. destruct (cons_total _ _ Hcons a b Ha Hb) as [s Hs].
  unfold signOrZero. rewrite Hs. reflexivity.
Qed.

Lemma Compare_sg a b : a ∈ l -> b ∈ l -> V8.Compare cmp a b = Ok (sg a b).
Proof.
  intros Ha Hb. pose proof (signOf_sg a b Ha Hb) as Hs.
  unfold V8.Compare, signOrZero, signOf in *.
  destruct (cmp a b) as [n|]; simpl in *; [|discriminate].
  destruct (Num.isNaN n); simpl in *; [discriminate|reflexivity].
Qed.

Lemma sgn_range n : Num.sgn n = -1 \/ Num.sgn n = 0 \/ Num.sgn n = 1.
Proof. destruct n as [|[]|[] e]; simpl; auto. Qed.

Lemma sg_range a b : sg a b = -1 \/ sg a b = 0 \/ sg a b = 1.
Proof.
  unfold signOrZero, signOf. destruct (cmp a b) as [n|]; simpl; auto.
  destruct (Num.isNaN n); simpl; auto using sgn_range.
Qed.

Lemma sg_refl a : a ∈ l -> sg a a = 0.
Proof.
  intros Ha. pose proof (cons_refl _ _ Hcons a Ha) as Hr.
  rewrite signOf_sg in Hr by done. congruence.
Qed.

Lemma sg_sym0 a b : a ∈ l -> b ∈ l -> sg a b = 0 -> sg b a = 0.
Proof.
  intros Ha Hb E. pose proof (cons_sym _ _ Hcons a b Ha Hb) as Hs.
  rewrite !signOf_sg in Hs by done. rewrite E in Hs.
  specialize (Hs eq_refl). congruence.
Qed.

Lemma sg_trans a b c :
  a ∈ l -> b ∈ l -> c ∈ l -> sg a b = sg b c -> sg a c = sg a b.
Proof.
  intros Ha Hb Hc E.
  pose proof (cons_trans _ _ Hcons (sg a b) a b c Ha Hb Hc) as Ht.
  rewrite !signOf_sg in Ht by done.
  specialize (Ht eq_refl). rewrite <- E in Ht. specialize (Ht eq_refl).
  congruence.
Qed.

Lemma sg_opp a b : a ∈ l -> b ∈ l -> sg b a = - sg a b.
Proof.
  intros Ha Hb.
  pose proof (sg_range a b). pose proof (sg_range b a).
  pose proof (sg_refl a Ha).
  pose proof (sg_sym0 a b Ha Hb). pose proof (sg_sym0 b a Hb Ha).
  pose proof (sg_trans a b a Ha Hb Ha).
  lia.
Qed.

Ltac signs a b c Ha Hb Hc :=
  pose proof (sg_range a b); pose proof (sg_range b c);
  pose proof (sg_range a c);
  pose proof (sg_opp a b Ha Hb); pose proof (sg_opp b c Hb Hc);
  pose proof (sg_opp a c Ha Hc);
  pose proof (sg_trans a b c Ha Hb Hc); pose proof (sg_trans b c a Hb Hc Ha);
  pose proof (sg_trans c a b Hc Ha Hb); pose proof (sg_trans a c b Ha Hc Hb);
  pose proof (sg_trans b a c Hb Ha Hc); pose proof (sg_trans c b a Hc Hb Ha).

#[local] Instance lel_trans : Transitive lel.
Proof.
  intros a b c (Ha & Hb & Hab) (_ & Hc & Hbc). repeat split; auto.
  signs a b c Ha Hb Hc. lia.
Qed.

Lemma lel_ordered a b : lel a b -> ordered cmp a b.
Proof.
  intros (Ha & Hb & Hab). exists (sg a b). split; auto using signOf_sg.
Qed.

Lemma runLoop_spec d rest : forall previous k,
  previous ∈ l -> Forall (.∈ l) rest ->
  exists j, V8.runLoop cmp d previous rest k = Ok (k + j)%nat
            /\ (j <= length rest)%nat
            /\ Sorted (step d) (previous :: take j rest).
Proof.
  induction rest as [|c rest IH]; intros previous k Hp Hall; simpl.
  - exists 0%nat. rewrite Nat.add_0_r. repeat split; auto.
  - apply Forall_cons in Hall as [Hc Hall].
    rewrite (Compare_sg c previous Hc Hp). simpl.
    destruct (if d then 0 <=? sg c previous else sg c previous <? 0) eqn:E.
    + exists 0%nat. rewrite Nat.add_0_r.
      split; [done|]. split; [lia|]. simpl. repeat constructor.
    + destruct (IH c (S k) Hc Hall) as (j & Hrun & Hj & Hs).
      exists (S j). rewrite Hrun. repeat split; [f_equal; lia|simpl; lia|].
      simpl. constructor; auto. constructor. repeat split; auto.
      destruct d; lia.
Qed.

Lemma step_false_lel p c : step false p c -> lel p c.
Proof.
  intros (Hp & Hc & Hs). repeat split; auto.
  pose proof (sg_opp p c Hp Hc). simpl in Hs. lia.
Qed.

Lemma step_true_lel p c : flip (step true) p c -> lel p c.
Proof. intros (Hc & Hp & Hs). repeat split; auto. simpl in Hs. lia. Qed.

Lemma CountAndMakeRun_spec a :
  (2 <= length a)%nat -> Forall (.∈ l) a ->
  exists n a', V8.CountAndMakeRun cmp a = Ok (n, a')
               /\ a ≡ₚ a' /\ StronglySorted lel (take n a').
Proof.
  intros Hlen Hall.
  destruct a as [|x0 [|x1 rest]]; simpl in Hlen; try lia.
  apply Forall_cons in Hall as [H0 Hall].
  apply Forall_cons in Hall as [H1 Hall].
  unfold V8.CountAndMakeRun. rewrite (Compare_sg x1 x0 H1 H0). simpl.
  destruct (runLoop_spec (sg x1 x0 <? 0) rest x1 2 H1 Hall)
    as (j & Hrun & Hj & Hs).
  rewrite Hrun. simpl.
  assert (Hrunsorted :
    Sorted (step (sg x1 x0 <? 0)) (take (S (S j)) (x0 :: x1 :: rest))).
  { simpl. constructor; auto. constructor. repeat split; auto.
    destruct (sg x1 x0 <? 0) eqn:E; lia. }
  destruct (sg x1 x0 <? 0) eqn:E.
  - eexists _, _. split; [reflexivity|]. split.
    + rewrite reverse_Permutation. simpl. by rewrite take_drop.
    + rewrite take_app_length'.
      2:{ rewrite length_reverse. simpl. rewrite length_take. lia. }
      apply Sorted.Sorted_StronglySorted; [apply lel_trans|].
      eapply Sorted_mono; [apply step_true_lel|].
      by apply Sorted_reverse.
  - eexists _, _. split; [reflexivity|]. split; [done|].
    apply Sorted.Sorted_StronglySorted; [apply lel_trans|].
    eapply Sorted_mono; [apply step_false_lel|]. done.
Qed.

Lemma search_spec s pivot :
  pivot ∈ l -> Forall (.∈ l) s -> StronglySorted lel s ->
  forall fuel left right,
    (left <= right <= length s)%nat -> (right - left <= fuel)%nat ->
    Forall (fun x => 0 <= sg pivot x) (take left s) ->
    Forall (fun x => sg pivot x < 0) (drop right s) ->
    exists p, V8.search cmp fuel s pivot left right = Ok p
              /\ Forall (fun x => 0 <= sg pivot x) (take p s)
              /\ Forall (fun x => sg pivot x < 0) (drop p s).
Proof.
  intros Hp Hall Hss. induction fuel as [|fuel IH]; intros left right Hlr Hf Hlo Hhi.
  - simpl. exists left. split; auto. split; auto.
    by replace left with right by lia.
  - simpl. destruct (left <? right)%nat eqn:E.
    2:{ apply Nat.ltb_ge in E. exists left. split; auto. split; auto.
        by replace left with right by lia. }
    apply Nat.ltb_lt in E.
    set (mid := (left + Nat.div2 (right - left))%nat).
    assert (Hmid : (left <= mid < right)%nat).
    { unfold mid. destruct (right - left)%nat as [|d] eqn:Ed; [lia|].
      pose proof (Nat.le_div2 d). simpl in *.
      assert (Nat.div2 (S d) <= d)%nat by (destruct d; simpl in *; lia).
      lia. }
    destruct (lookup_lt_is_Some_2 s mid) as [x Hx]; [lia|].
    rewrite Hx.
    assert (Hxl : x ∈ l).
    { rewrite Forall_forall in Hall. apply Hall.
      eapply list_elem_of_lookup_2; eauto. }
    rewrite (Compare_sg pivot x Hp Hxl). simpl.
    pose proof (take_drop_middle s mid x Hx) as Hsplit.
    destruct (sg pivot x <? 0) eqn:Es.
    + apply Z.ltb_lt in Es.
      apply (IH left mid); [lia|lia|done|].
      rewrite (drop_S s x mid Hx). constructor; [done|].
      rewrite Forall_forall. intros y Hy.
      assert (Hxy : lel x y).
      { rewrite <- Hsplit in Hss.
        apply StronglySorted_app_1_r in Hss.
        apply StronglySorted_cons in Hss as [Hfa _].
        rewrite Forall_forall in Hfa. by apply Hfa. }
      destruct Hxy as (_ & Hyl & Hxy).
      signs pivot x y Hp Hxl Hyl. lia.
    + apply Z.ltb_ge in Es.
      apply (IH (S mid) right); [lia|lia| |done].
      rewrite (take_S_r s mid x Hx). apply Forall_app. split.
      * rewrite Forall_forall. intros y Hy.
        assert (Hyx : lel y x).
        { rewrite <- Hsplit in Hss.
          eapply StronglySorted_app_1_elem_of; eauto. left. }
        destruct Hyx as (Hyl & _ & Hyx).
        signs pivot x y Hp Hxl Hyl. lia.
      * by repeat constructor.
Qed.

Lemma BinaryInsertionSort_spec rest : forall sorted,
  Forall (.∈ l) sorted -> Forall (.∈ l) rest -> StronglySorted lel sorted ->
  exists out, V8.BinaryInsertionSort cmp sorted rest = Ok out
              /\ sorted ++ rest ≡ₚ out /\ StronglySorted lel out.
Proof.
  induction rest as [|pivot rest IH]; intros sorted Hs Hr Hss; simpl.
  - exists sorted. rewrite app_nil_r. auto.
  - apply Forall_cons in Hr as [Hp Hr].
    destruct (search_spec sorted pivot Hp Hs Hss (length sorted) 0%nat (length sorted))
      as (p & Hsearch & Hlo & Hhi); [lia|lia|constructor| |].
    { rewrite drop_all. constructor. }
    rewrite Hsearch. simpl.
    pose proof (take_drop p sorted) as Hsplit.
    destruct (IH (take p sorted ++ pivot :: drop p sorted)) as (out & Hout & Hperm & Hsorted).
    + apply Forall_app. split; [by apply Forall_take|].
      constructor; [done|by apply Forall_drop].
    + done.
    + rewrite <- Hsplit in Hss. apply StronglySorted_app in Hss as (Hcross & Hl & Hrr).
      apply StronglySorted_app_2; [| done |].
      * intros x1 x2 H1 H2.
        assert (H1l : x1 ∈ l).
        { rewrite Forall_forall in Hs. apply Hs. rewrite <- Hsplit.
          apply elem_of_app. by left. }
        apply elem_of_cons in H2 as [->|H2]; [|by apply Hcross].
        repeat split; auto. rewrite Forall_forall in Hlo.
        specialize (Hlo x1 H1). pose proof (sg_opp pivot x1 Hp H1l). lia.
      * apply StronglySorted_cons. split; [|done].
        rewrite Forall_forall. intros y Hy.
        assert (Hyl : y ∈ l).
        { rewrite Forall_forall in Hs. apply Hs. rewrite <- Hsplit.
          apply elem_of_app. by right. }
        repeat split; auto. rewrite Forall_forall in Hhi.
        specialize (Hhi y Hy). lia.
    + exists out. split; [done|]. split; [|done].
      rewrite <- Hperm. rewrite <- Hsplit at 1.
      rewrite <- !app_assoc. apply Permutation_app_head.
      simpl. symmetry. apply Permutation_middle.
Qed.

End SortCorrect.

Theorem ArrayTimSortImpl_sorts {A} (cmp : A -> A -> result number) (l : list A) :
  consistent cmp l ->
  exists l', V8.ArrayTimSortImpl cmp l = Ok l' /\ l ≡ₚ l'
             /\ StronglySorted (ordered cmp) l'.
Proof.
  intros Hcons. unfold V8.ArrayTimSortImpl.
  destruct (length l <? 2)%nat eqn:E.
  - apply Nat.ltb_lt in E. exists l. split; [done|]. split; [done|].
    destruct l as [|x [|y l]]; simpl in E; try lia; repeat constructor.
  - apply Nat.ltb_ge in E.
    assert (Hall : Forall (.∈ l) l) by (by apply Forall_forall).
    destruct (CountAndMakeRun_spec cmp l Hcons l E Hall) as (n & a' & Hrun & Hperm & Hss).
    rewrite Hrun. simpl.
    assert (Hall' : Forall (.∈ l) a') by (by rewrite <- Hperm).
    destruct (BinaryInsertionSort_spec cmp l Hcons (drop n a') (take n a'))
      as (out & Hout & Hperm' & Hsorted);
      [by apply Forall_take|by apply Forall_drop|done|].
    exists out. split; [done|]. split.
    + rewrite Hperm, <- Hperm'. by rewrite take_drop.
    + eapply StronglySorted_mono; [apply lel_ordered; done|done].
Qed.

(** ** A host to run the program on

    V8's sort, styling switched off (output that is not a terminal),
    code-unit collation, and market caps printed in full. *)

#[global] Instance v8Host : Host := {|
  colorsEnabled := false;
  localeCompare := codeUnitCompare;
  compactInteger := fun input _ => ToString input;
  arraySort := @V8.ArrayTimSortImpl;
  arraySort_sorts := @ArrayTimSortImpl_sorts
|}.

Example ofString_samples :
  Num.ofString "-5" = Finite (-5) 0 /\ Num.ofString "abc" = NaN /\
  Num.ofString "" = Finite 0 0 /\ Num.ofString " 12.50 " = Finite 125 (-1) /\
  Num.ofString "1e3" = Finite 1 3 /\ Num.ofString "0x1F" = Finite 31 0 /\
  Num.ofString "-Infinity" = Infinity true /\ Num.ofString "1e" = NaN /\
  Num.ofString ".5" = Finite 5 (-1) /\ Num.ofString "5." = Finite 5 0 /\
  Num.ofString "." = NaN /\ Num.ofString "-" = NaN /\
  Num.ofString "2,0" = NaN.
Proof. vm_compute. repeat split. Qed.

Example toString_samples :
  Num.toString (Finite 125 (-1)) = "12.5"%string /\
  Num.toString (Finite (-5) 0) = "-5"%string /\
  Num.toString (Finite 1 3) = "1000"%string /\
  Num.toString (Finite 1 21) = "1e+21"%string /\
  Num.toString (Finite 15 (-8)) = "1.5e-7"%string /\
  Num.toString (Finite 1 (-6)) = "0.000001"%string /\
  Num.toString (Finite 0 5) = "0"%string /\
  Num.toFixed (Finite 2 2) 2 = "200.00"%string /\
  Num.toFixed (Finite 1005 (-3)) 2 = "1.01"%string /\
  Num.toFixed (Finite (-1) (-3)) 2 = "-0.00"%string /\
  Num.toFixed (Finite 1234 (-3)) 2 = "1.23"%string.
Proof. vm_compute. repeat split. Qed.

Example v8_sort_numbers :
  V8.ArrayTimSortImpl (fun a b => Ok (Num.ofZ (a - b))) [3; 1; 2; 5; 4; 0]
  = Ok [0; 1; 2; 3; 4; 5].
Proof. vm_compute. reflexivity. Qed.

Example v8_sort_constant :
  V8.ArrayTimSortImpl (fun _ _ : Z => Ok (Finite (-1) 0)) [1; 2; 3; 4]
  = Ok [4; 3; 2; 1].
Proof. vm_compute. reflexivity. Qed.

Example parse_noArguments : parse noArguments = Return defaults.
Proof. vm_compute. reflexivity. Qed.

Example rows_sample :
  rows defaults ∅ [coin "1" "BTC" "100.5" "-0.5" "5000"] =
  Ok [[VNum (Finite 1 0); VStr "BTC"; VNum (Finite 1005 (-1)); VStr "NA";
       VStr "-0.5%"; VStr "NA"; VStr "5000"]].
Proof. vm_compute. reflexivity. Qed.

(** ** Strings *)

Lemma lowerChar_upperChar c :
  JsString.lowerChar (JsString.upperChar c) = JsString.lowerChar c.
Proof. destruct c as [[] [] [] [] [] [] [] []]; reflexivity. Qed.

Lemma upperChar_idem c :
  JsString.upperChar (JsString.upperChar c) = JsString.upperChar c.
Proof. destruct c as [[] [] [] [] [] [] [] []]; reflexivity. Qed.

Lemma toLowerCase_toUpperCase s :
  JsString.toLowerCase (JsString.toUpperCase s) = JsString.toLowerCase s.
Proof. induction s; simpl; [done|]. by rewrite lowerChar_upperChar, IHs. Qed.

Lemma toUpperCase_idem s :
  JsString.toUpperCase (JsString.toUpperCase s) = JsString.toUpperCase s.
Proof. induction s; simpl; [done|]. by rewrite upperChar_idem, IHs. Qed.

Lemma toLowerCase_app a b :
  JsString.toLowerCase (a +:+ b) = JsString.toLowerCase a +:+ JsString.toLowerCase b.
Proof. induction a; simpl; [done|]. by rewrite IHa. Qed.

(** ** The validators *)

Lemma validateNumber_returns `{Host} (value : val) :
  validateNumber value = Return (ToNumber value).
Proof.
  unfold validateNumber, isNaN.
  destruct (ToNumber value); reflexivity.
Qed.

Lemma validateConvertCurrency_Return `{Host} value c :
  validateConvertCurrency value = Return c ->
  c = JsString.toUpperCase value /\ c ∈ availableCurrencies.
Proof.
  unfold validateConvertCurrency. case_bool_decide; [|discriminate].
  intros [= <-]. done.
Qed.

(** C1: [validateNumber] never ends the process.  Its guard asks for an
    argument that is not a number and at the same time at least zero,
    which nothing is, so every argument is returned converted: the
    valid ones, but also the non-numeric [abc] and the negative [-5];
    a run with [--top abc --rank 2x] passes both validators and goes on
    to build the request [limit=NaN]. *)
Theorem validateNumber_never_exits :
  (forall (H : Host) (value : val), validateNumber value = Return (ToNumber value))
  /\ validateNumber (VStr "abc") = Return NaN
  /\ validateNumber (VStr "-5") = Return (Finite (-5) 0)
  /\ exists program,
       parse {| arg_convert := None; arg_find := None; arg_top := Some "abc"%string;
                arg_portfolio := None; arg_specific := None;
                arg_rank := Some "2x"%string |} = Return program
       /\ opt_top program = NaN
       /\ opt_rank program = NaN
       /\ sourceUrl program
          = "https://api.coinmarketcap.com/v1/ticker/?limit=NaN&convert=USD"%string.
Proof.
  split; [intros; apply validateNumber_returns|].
  split; [reflexivity|]. split; [reflexivity|].
  eexists. split; [vm_compute; reflexivity|]. repeat split.
Qed.

(** ** The currency keys *)

Lemma priceKey_eq program :
  priceKey program = "price_" +:+ JsString.toLowerCase (opt_convert program).
Proof.
  unfold priceKey, convert. by rewrite toLowerCase_app, toLowerCase_toUpperCase.
Qed.

Lemma marketCapKey_eq program :
  marketCapKey program =
  "market_cap_" +:+ JsString.toLowerCase (marketcapConvert program).
Proof. unfold marketCapKey. by rewrite toLowerCase_app. Qed.

Lemma volume24hKey_eq program :
  volume24hKey program =
  "24h_volume_" +:+ JsString.toLowerCase (marketcapConvert program).
Proof. unfold volume24hKey. by rewrite toLowerCase_app. Qed.

(** C3, as stated, fails for BTC: the market cap key of a run that
    converts to BTC is [market_cap_usd]. *)
Lemma btc_market_cap_key_is_usd :
  ~ (forall c program, c ∈ availableCurrencies -> opt_convert program = c ->
       marketCapKey program = "market_cap_" +:+ JsString.toLowerCase c).
Proof.
  intros Hclaim.
  specialize (Hclaim "BTC"%string
    {| opt_convert := "BTC"; opt_find := []; opt_top := Num.ofZ 10;
       opt_portfolio := VUndefined; opt_specific := []; opt_rank := Num.ofZ 0 |}).
  assert (Hin : "BTC"%string ∈ availableCurrencies) by (vm_compute; set_solver).
  specialize (Hclaim Hin eq_refl). vm_compute in Hclaim. discriminate.
Qed.

(** ** Normalization *)

Ltac key_neq :=
  rewrite ?priceKey_eq, ?marketCapKey_eq, ?volume24hKey_eq; simpl; discriminate.

Ltac get_insert :=
  unfold get;
  repeat first [ rewrite lookup_insert_eq | rewrite lookup_insert_ne by key_neq ].

Lemma editedRecord_numeric program portfolioCoins record edited k :
  editedRecord program portfolioCoins record = Ok edited ->
  k ∈ numericFields program ->
  get edited k = numberOrFalsy record k.
Proof.
  unfold editedRecord, numericFields. intros He Hk.
  assert (Hbase : exists rest : gmap string val -> gmap string val,
    (rest = id \/ exists a b, rest = fun m =>
       <["portfolio_estimated_value"%string := a]> (<["portfolio_balance"%string := b]> m))
    /\ edited = rest
      (<[marketCapKey program := numberOrFalsy record (marketCapKey program)]>
      (<[volume24hKey program := numberOrFalsy record (volume24hKey program)]>
      (<[priceKey program := numberOrFalsy record (priceKey program)]>
      (<["last_updated"%string := get record "last_updated"]>
      (<["percent_change_7d"%string := numberOrFalsy record "percent_change_7d"]>
      (<["percent_change_24h"%string := numberOrFalsy record "percent_change_24h"]>
      (<["percent_change_1h"%string := numberOrFalsy record "percent_change_1h"]>
      (<["max_supply"%string := numberOrFalsy record "max_supply"]>
      (<["total_supply"%string := numberOrFalsy record "total_supply"]>
      (<["available_supply"%string := numberOrFalsy record "available_supply"]>
      (<["rank"%string := numberOrFalsy record "rank"]>
      (<["symbol"%string := get record "symbol"]>
      (<["name"%string := get record "name"]> ∅)))))))))))))).
  { destruct (truthy (portfolio program)).
    - destruct (symbolLower record) as [s|]; simpl in He; [|discriminate].
      injection He as <-. eexists. split; [right; eauto|reflexivity].
    - injection He as <-. exists id. split; [by left|reflexivity]. }
  destruct Hbase as (rest & Hrest & ->).
  repeat (apply elem_of_cons in Hk as [->|Hk]);
    try (by apply elem_of_nil in Hk);
    destruct Hrest as [->|(a & b & ->)]; simpl; get_insert; reflexivity.
Qed.

Lemma editedRecord_total program portfolioCoins record :
  truthy (portfolio program) = false \/ (exists s, get record "symbol" = VStr s) ->
  exists edited, editedRecord program portfolioCoins record = Ok edited.
Proof.
  unfold editedRecord, symbolLower. intros [Hp|[s Hs]].
  - rewrite Hp. eauto.
  - rewrite Hs. simpl. destruct (truthy (portfolio program)); eauto.
Qed.

Lemma numberOrFalsy_falsy record k :
  truthy (get record k) = false -> numberOrFalsy record k = get record k.
Proof. unfold numberOrFalsy, and_then. by intros ->. Qed.

Lemma emptyRaw_falsy v : emptyRaw v -> truthy v = false.
Proof. intros [->|[->|[->| ->]]]; reflexivity. Qed.

Lemma getColoredChangeValueText_falsy `{Host} v :
  truthy v = false -> getColoredChangeValueText v = VStr "NA".
Proof.
  intros Hv. unfold getColoredChangeValueText, or_else, and_then.
  by rewrite Hv, Hv.
Qed.

(** In portfolio mode the first [map] stores a number as the estimated
    value, so the second [map] can format it. *)
Lemma editedRecord_defaultValues `{Host} program portfolioCoins record edited :
  editedRecord program portfolioCoins record = Ok edited ->
  exists dv, defaultValues program edited = Ok dv
    /\ dv !! 3%nat = Some (getColoredChangeValueText (get edited "percent_change_1h"))
    /\ dv !! 4%nat = Some (getColoredChangeValueText (get edited "percent_change_24h"))
    /\ dv !! 5%nat = Some (getColoredChangeValueText (get edited "percent_change_7d")).
Proof.
  unfold editedRecord, defaultValues. intros He.
  destruct (truthy (portfolio program)).
  - destruct (symbolLower record) as [s|]; simpl in He; [|discriminate].
    injection He as <-.
    assert (Hg : forall (m : gmap string val) (a : val),
      get (<["portfolio_estimated_value"%string := a]> m) "portfolio_estimated_value" = a).
    { intros. unfold get. by rewrite lookup_insert_eq. }
    rewrite Hg. eexists. split; [reflexivity|]. repeat split.
  - injection He as <-. eexists. split; [reflexivity|]. repeat split.
Qed.

(** C2, as stated, fails for a raw zero: [0 && +0] is the number zero,
    so the normalized field is numeric zero and not absent. *)
Lemma zero_field_stays_numeric_zero :
  ~ (forall program portfolioCoins record edited k,
       editedRecord program portfolioCoins record = Ok edited ->
       k ∈ numericFields program -> emptyRaw (get record k) ->
       get edited k <> VNum (Finite 0 0)).
Proof.
  intros Hclaim.
  set (record := <["percent_change_24h"%string := VNum (Finite 0 0)]>
                   (coin "1" "BTC" "100" "0" "5")).
  destruct (editedRecord_total defaults ∅ record) as [edited He]; [by left|].
  apply (Hclaim defaults ∅ record edited "percent_change_24h"%string He).
  - vm_compute. set_solver.
  - left. reflexivity.
  - rewrite (editedRecord_numeric _ _ _ _ _ He) by (vm_compute; set_solver).
    reflexivity.
Qed.

(** C2, amended: for every raw record and every numeric-bearing field
    whose raw value is [0], [null], the empty string or missing, the
    normalized field is that same raw value, not converted (so [0]
    stays the number zero and a missing field stays [undefined]); and
    when the field is a percent change, its column of the display row is
    the text [NA]. *)
Theorem empty_field_kept_and_rendered_NA `{Host}
    (program : options) (portfolioCoins : gmap string val)
    (record edited : gmap string val) (k : string) :
  editedRecord program portfolioCoins record = Ok edited ->
  k ∈ numericFields program ->
  emptyRaw (get record k) ->
  get edited k = get record k
  /\ exists dv, defaultValues program edited = Ok dv
       /\ forall i, (k, i) ∈ percentChangeColumns -> dv !! i = Some (VStr "NA").
Proof.
  intros He Hk Hraw.
  pose proof (emptyRaw_falsy _ Hraw) as Hfalsy.
  assert (Hget : get edited k = get record k).
  { rewrite (editedRecord_numeric _ _ _ _ _ He Hk).
    by apply numberOrFalsy_falsy. }
  split; [done|].
  destruct (editedRecord_defaultValues _ _ _ _ He) as (dv & Hdv & H3 & H4 & H5).
  exists dv. split; [done|]. intros i Hi.
  rewrite <- Hget in Hfalsy.
  unfold percentChangeColumns in Hi.
  repeat (apply elem_of_cons in Hi as [[= -> ->]|Hi]);
    try (by apply elem_of_nil in Hi);
    [rewrite H3|rewrite H4|rewrite H5];
    by rewrite getColoredChangeValueText_falsy.
Qed.

Lemma empty_field_kept_and_rendered_NA_witness :
  let record := <["percent_change_24h"%string := VNum (Finite 0 0)]>
                  (coin "1" "BTC" "100" "0" "5") in
  exists edited,
    editedRecord defaults ∅ record = Ok edited
    /\ get edited "percent_change_24h" = VNum (Finite 0 0)
    /\ exists dv, defaultValues defaults edited = Ok dv
         /\ dv !! 4%nat = Some (VStr "NA").
Proof.
  intros record.
  destruct (editedRecord_total defaults ∅ record) as [edited He]; [by left|].
  exists edited. split; [exact He|].
  destruct (empty_field_kept_and_rendered_NA defaults ∅ record edited
              "percent_change_24h"%string He) as (Hget & dv & Hdv & Hna).
  - vm_compute. set_solver.
  - left. reflexivity.
  - split; [exact Hget|]. exists dv. split; [exact Hdv|].
    apply Hna. vm_compute. set_solver.
Defined.

(** C3, amended: for every currency of the allow-list, selected in any
    letter case, the price key of a normalized record carries the
    lowercased currency; the market cap and 24h volume keys carry it too
    unless the currency is BTC, in which case they carry [usd]. *)
Theorem currency_keys_follow_convert `{Host}
    (value c : string) (program : options) (portfolioCoins : gmap string val) :
  validateConvertCurrency value = Return c ->
  opt_convert program = c ->
  priceKey program = "price_" +:+ JsString.toLowerCase value
  /\ (c <> "BTC"%string ->
      marketCapKey program = "market_cap_" +:+ JsString.toLowerCase value
      /\ volume24hKey program = "24h_volume_" +:+ JsString.toLowerCase value)
  /\ (c = "BTC"%string ->
      marketCapKey program = "market_cap_usd"%string
      /\ volume24hKey program = "24h_volume_usd"%string)
  /\ forall record edited,
       editedRecord program portfolioCoins record = Ok edited ->
       edited !! priceKey program = Some (numberOrFalsy record (priceKey program))
       /\ edited !! marketCapKey program
          = Some (numberOrFalsy record (marketCapKey program))
       /\ edited !! volume24hKey program
          = Some (numberOrFalsy record (volume24hKey program)).
Proof.
  intros Hv Hc. apply validateConvertCurrency_Return in Hv as [Hup _].
  assert (Hconv : convert program = c).
  { unfold convert. rewrite Hc, Hup. apply toUpperCase_idem. }
  assert (Hlow : JsString.toLowerCase c = JsString.toLowerCase value).
  { rewrite Hup. apply toLowerCase_toUpperCase. }
  split; [|split; [|split]].
  - rewrite priceKey_eq, Hc. by rewrite Hlow.
  - intros Hne. rewrite marketCapKey_eq, volume24hKey_eq.
    unfold marketcapConvert. rewrite Hconv.
    destruct (String.eqb_spec c "BTC"); [done|]. by rewrite Hlow.
  - intros ->. unfold marketCapKey, volume24hKey, marketcapConvert.
    rewrite Hconv. done.
  - intros record edited He.
    unfold editedRecord in He.
    destruct (truthy (portfolio program)).
    + destruct (symbolLower record) as [s|]; simpl in He; [|discriminate].
      injection He as <-. repeat split; get_insert; reflexivity.
    + injection He as <-. repeat split; get_insert; reflexivity.
Qed.

Lemma currency_keys_follow_convert_witness :
  validateConvertCurrency "eur" = Return "EUR"%string
  /\ priceKey {| opt_convert := "EUR"; opt_find := []; opt_top := Num.ofZ 10;
                 opt_portfolio := VUndefined; opt_specific := [];
                 opt_rank := Num.ofZ 0 |} = "price_eur"%string.
Proof.
  split; [reflexivity|].
  apply (currency_keys_follow_convert "eur" "EUR"
    {| opt_convert := "EUR"; opt_find := []; opt_top := Num.ofZ 10;
       opt_portfolio := VUndefined; opt_specific := []; opt_rank := Num.ofZ 0 |}
    ∅ eq_refl eq_refl).
Defined.

(** ** Arrays *)

Lemma mapM_Ok {A B} (f : A -> result B) (l : list A) (out : list B) :
  mapM f l = Ok out -> Forall2 (fun a b => f a = Ok b) l out.
Proof.
  revert out. induction l as [|a l IH]; simpl; intros out Hm.
  - injection Hm as <-. constructor.
  - destruct (f a) as [b|] eqn:Ea; simpl in Hm; [|discriminate].
    destruct (mapM f l) as [bs|]; simpl in Hm; [|discriminate].
    injection Hm as <-. constructor; auto.
Qed.

Lemma someM_pure {A} (p : A -> result bool) (q : A -> bool) (l : list A) :
  (forall a, a ∈ l -> p a = Ok (q a)) -> someM p l = Ok (existsb q l).
Proof.
  induction l as [|a l IH]; simpl; intros Hp; [done|].
  rewrite (Hp a) by left. simpl.
  destruct (q a); simpl; [done|]. apply IH. intros b Hb. apply Hp. by right.
Qed.

Lemma filterM_pure {A} (p : A -> result bool) (q : A -> bool) (l : list A) :
  (forall a, a ∈ l -> p a = Ok (q a)) -> filterM p l = Ok (List.filter q l).
Proof.
  induction l as [|a l IH]; simpl; intros Hp; [done|].
  rewrite (Hp a) by left. simpl.
  rewrite IH by (intros b Hb; apply Hp; by right). simpl.
  by destruct (q a).
Qed.

(** ** The filter stage *)

(** C9: outside portfolio mode and with a find list that is not empty,
    the filter stage keeps exactly the records whose symbol equals,
    letter case ignored, some entry of the find list, in their order. *)
Theorem filter_find_exact `{Host}
    (program : options) (portfolioCoins : gmap string val)
    (data : list (gmap string val)) :
  truthy (portfolio program) = false ->
  find program <> [] ->
  (forall record, record ∈ data -> exists s, get record "symbol" = VStr s) ->
  exists kept,
    filterStage program portfolioCoins data = Ok kept
    /\ kept `sublist_of` data
    /\ forall record,
         record ∈ kept <->
         record ∈ data /\ exists keyword, keyword ∈ find program
                                          /\ sameSymbol record keyword.
Proof.
  intros Hp Hfind Hsym.
  set (q := fun record : gmap string val =>
    existsb (fun keyword =>
      match get record "symbol" with
      | VStr s => String.eqb (JsString.toLowerCase s) (JsString.toLowerCase keyword)
      | _ => false
      end) (find program)).
  assert (Hkeep : forall record, record ∈ data ->
            keep program portfolioCoins record = Ok (q record)).
  { intros record Hr. unfold keep. rewrite Hp.
    assert ((0 <? length (find program))%nat = true) as ->.
    { destruct (find program); [done|reflexivity]. }
    unfold q. apply someM_pure.
    intros keyword _. unfold matches, symbolLower.
    destruct (Hsym record Hr) as [s ->]. reflexivity. }
  exists (List.filter q data). split; [by apply filterM_pure|]. split.
  - clear. induction data as [|r data IH]; simpl; [constructor|].
    destruct (q r); by constructor.
  - intros record. rewrite list_elem_of_In, filter_In, <- list_elem_of_In.
    split; intros [Hin Hq]; (split; [done|]).
    + unfold q in Hq. apply existsb_exists in Hq as (keyword & Hk & Hm).
      apply list_elem_of_In in Hk.
      exists keyword. split; [done|].
      destruct (get record "symbol") as [| | | |s] eqn:Es; try discriminate.
      exists s. split; [done|]. by apply String.eqb_eq.
    + destruct Hq as (keyword & Hk & s & Hs & Hm).
      unfold q. apply existsb_exists. exists keyword.
      split; [by apply list_elem_of_In|]. rewrite Hs. by apply String.eqb_eq.
Qed.

Lemma filter_find_exact_witness :
  exists kept,
    filterStage
      {| opt_convert := "USD"; opt_find := ["eth"; "xrp"]%string;
         opt_top := Num.ofZ 10; opt_portfolio := VUndefined;
         opt_specific := []; opt_rank := Num.ofZ 0 |} ∅
      [coin "1" "BTC" "100" "1" "5"; coin "2" "ETH" "10" "1" "4";
       coin "3" "XRP" "1" "1" "3"] = Ok kept
    /\ kept `sublist_of`
         [coin "1" "BTC" "100" "1" "5"; coin "2" "ETH" "10" "1" "4";
          coin "3" "XRP" "1" "1" "3"].
Proof.
  destruct (filter_find_exact
    {| opt_convert := "USD"; opt_find := ["eth"; "xrp"]%string;
       opt_top := Num.ofZ 10; opt_portfolio := VUndefined;
       opt_specific := []; opt_rank := Num.ofZ 0 |} ∅
    [coin "1" "BTC" "100" "1" "5"; coin "2" "ETH" "10" "1" "4";
     coin "3" "XRP" "1" "1" "3"]) as (kept & Hk & Hsub & _).
  - reflexivity.
  - discriminate.
  - intros record Hr.
    repeat (apply elem_of_cons in Hr as [->|Hr]);
      try (by apply elem_of_nil in Hr); eexists; vm_compute; reflexivity.
  - exists kept. split; [exact Hk|exact Hsub].
Defined.

Example filter_find_sample :
  filterStage
    {| opt_convert := "USD"; opt_find := ["eth"; "xrp"]%string;
       opt_top := Num.ofZ 10; opt_portfolio := VUndefined;
       opt_specific := []; opt_rank := Num.ofZ 0 |} ∅
    [coin "1" "BTC" "100" "1" "5"; coin "2" "ETH" "10" "1" "4";
     coin "3" "XRP" "1" "1" "3"]
  = Ok [coin "2" "ETH" "10" "1" "4"; coin "3" "XRP" "1" "1" "3"].
Proof. vm_compute. reflexivity. Qed.

(** ** The column selection *)

Lemma string_compare_refl s : String.compare s s = Eq.
Proof. by apply String_as_OT.cmp_eq. Qed.

Lemma string_compare_Lt_trans a b c :
  String.compare a b = Lt -> String.compare b c = Lt -> String.compare a c = Lt.
Proof.
  intros Hab Hbc. apply String_as_OT.cmp_lt.
  apply String_as_OT.cmp_lt in Hab, Hbc.
  eapply String_as_OT.lt_trans; eauto.
Qed.

Lemma string_compare_Gt a b : String.compare a b = Gt <-> String.compare b a = Lt.
Proof.
  rewrite (String.compare_antisym b a).
  destruct (String.compare a b); simpl; split; congruence.
Qed.

Lemma signOf_defaultCompare x y :
  signOf defaultCompare x y = Some (defaultSign x y).
Proof.
  unfold signOf, defaultCompare, defaultSign, JsString.ltb.
  rewrite (String.compare_antisym (Num.toString x) (Num.toString y)).
  destruct (String.compare (Num.toString y) (Num.toString x)); reflexivity.
Qed.

Lemma defaultCompare_consistent l : consistent defaultCompare l.
Proof.
  split.
  - intros a b _ _. rewrite signOf_defaultCompare. eauto.
  - intros a _. rewrite signOf_defaultCompare. unfold defaultSign.
    by rewrite string_compare_refl.
  - intros a b _ _. rewrite !signOf_defaultCompare. unfold defaultSign.
    destruct (String.compare (Num.toString a) (Num.toString b)) eqn:E;
      try discriminate.
    apply String.compare_eq_iff in E. rewrite E.
    by rewrite string_compare_refl.
  - intros s a b c _ _ _. rewrite !signOf_defaultCompare. unfold defaultSign.
    destruct (String.compare (Num.toString a) (Num.toString b)) eqn:Eab;
      intros [= <-];
      destruct (String.compare (Num.toString b) (Num.toString c)) eqn:Ebc;
      intros [=].
    + apply String.compare_eq_iff in Eab. rewrite Eab. by rewrite Ebc.
    + by rewrite (string_compare_Lt_trans _ _ _ Eab Ebc).
    + apply string_compare_Gt in Eab, Ebc.
      pose proof (string_compare_Lt_trans _ _ _ Ebc Eab) as Hca.
      apply string_compare_Gt in Hca. by rewrite Hca.
Qed.

Lemma sortedColumns_Ok `{Host} program :
  exists sc, sortedColumns program = Ok sc
             /\ columns program ≡ₚ sc
             /\ StronglySorted (ordered defaultCompare) sc.
Proof. apply arraySort_sorts, defaultCompare_consistent. Qed.

Lemma length_defaultHeader `{Host} program :
  length (defaultHeader program)
  = if truthy (portfolio program) then 9%nat else 7%nat.
Proof.
  unfold defaultHeader. rewrite length_app, length_map.
  by destruct (truthy (portfolio program)).
Qed.

Lemma values_length `{Host} program sc record row :
  values program sc record = Ok row -> length row = length sc.
Proof.
  unfold values. destruct (defaultValues program record) as [dv|]; simpl;
    [|discriminate].
  intros [= <-]. apply length_map.
Qed.

(** C10: every row pushed to the table has as many cells as the header
    has columns, both being read off the same sorted column
    selection. *)
Theorem row_length_matches_header `{Host}
    (program : options) (portfolioCoins : gmap string val) :
  exists sc h,
    sortedColumns program = Ok sc
    /\ header program = Ok h
    /\ length h = length sc
    /\ forall data rws,
         rows program portfolioCoins data = Ok rws ->
         Forall (fun row => length row = length h) rws.
Proof.
  destruct (sortedColumns_Ok program) as (sc & Hsc & _ & _).
  exists sc, (map (fun index => at_index (defaultHeader program) index) sc).
  split; [done|]. split; [unfold header; by rewrite Hsc|].
  split; [apply length_map|].
  intros data rws. unfold rows. rewrite Hsc. simpl.
  destruct (filterStage program portfolioCoins data) as [filtered|]; simpl;
    [|discriminate].
  destruct (mapM (editedRecord program portfolioCoins) filtered) as [edited|];
    simpl; [|discriminate].
  destruct (sortStage program edited) as [sorted|]; simpl; [|discriminate].
  intros Hm. apply mapM_Ok in Hm.
  rewrite length_map.
  induction Hm as [|record row sorted' rws' Hrow _ IH]; constructor; auto.
  by apply values_length in Hrow.
Qed.

Lemma row_length_matches_header_witness :
  exists sc h,
    sortedColumns
      {| opt_convert := "USD"; opt_find := []; opt_top := Num.ofZ 10;
         opt_portfolio := VUndefined; opt_specific := ["2"; "0"]%string;
         opt_rank := Num.ofZ 0 |} = Ok sc
    /\ header
         {| opt_convert := "USD"; opt_find := []; opt_top := Num.ofZ 10;
            opt_portfolio := VUndefined; opt_specific := ["2"; "0"]%string;
            opt_rank := Num.ofZ 0 |} = Ok h
    /\ Forall (fun row => length row = length h)
         [[VNum (Finite 1 0); VNum (Finite 1005 (-1))]].
Proof.
  destruct (row_length_matches_header
    {| opt_convert := "USD"; opt_find := []; opt_top := Num.ofZ 10;
       opt_portfolio := VUndefined; opt_specific := ["2"; "0"]%string;
       opt_rank := Num.ofZ 0 |} ∅) as (sc & h & Hsc & Hh & _ & Hrows).
  exists sc, h. split; [exact Hsc|]. split; [exact Hh|].
  apply (Hrows [coin "1" "BTC" "100.5" "-0.5" "5000"]).
  vm_compute. reflexivity.
Defined.

Lemma StronglySorted_mono_elem {A} (R S : A -> A -> Prop) (l : list A) :
  (forall a b, a ∈ l -> b ∈ l -> R a b -> S a b) ->
  StronglySorted R l -> StronglySorted S l.
Proof.
  intros HRS Hs. induction Hs as [|x l Hs IH Hall]; constructor.
  - apply IH. intros a b Ha Hb. apply HRS; by right.
  - rewrite Forall_forall in *. intros y Hy.
    apply HRS; [by left|by right|by apply Hall].
Qed.

Ltac enumerate z :=
  let Hz := fresh in
  assert (Hz : z = 0 \/ z = 1 \/ z = 2 \/ z = 3 \/ z = 4 \/ z = 5 \/ z = 6
               \/ z = 7 \/ z = 8) by lia;
  repeat (destruct Hz as [Hz|Hz]; [subst z|]); [..|subst z].

Lemma defaultSign_digit x y zx zy :
  digitIndex x zx -> digitIndex y zy -> defaultSign x y = Z.sgn (zx - zy).
Proof.
  intros [-> Hx] [-> Hy]. enumerate zx; enumerate zy; reflexivity.
Qed.

Lemma ltb_whole_bound z n :
  Num.ltb (Finite z 0) (Finite n 0) = true -> z < n.
Proof.
  unfold Num.ltb, Num.compare, Num.align. simpl.
  rewrite !Z.mul_1_r. destruct (z ?= n) eqn:E; try discriminate.
  intros _. by apply Z.compare_lt_iff.
Qed.

Lemma ofZ_headerLength `{Host} program :
  Num.ofZ (Z.of_nat (length (defaultHeader program)))
  = Finite (if truthy (portfolio program) then 9 else 7) 0.
Proof.
  rewrite length_defaultHeader. by destruct (truthy (portfolio program)).
Qed.

Lemma defaultColumns_eq `{Host} program :
  defaultColumns program =
  map (fun z => Finite z 0)
      (if truthy (portfolio program) then [0; 1; 2; 3; 4; 5; 6; 7; 8]
       else [0; 1; 2; 3; 4; 5; 6]).
Proof.
  unfold defaultColumns. rewrite length_defaultHeader.
  by destruct (truthy (portfolio program)).
Qed.

(** What the filter of [columns] keeps: the numbers below the header
    length, whatever their sign. *)
Lemma columns_kept `{Host} program index :
  column program <> [] ->
  index ∈ columns program <->
  exists entry, entry ∈ column program /\ index = ToNumber (VStr entry)
                /\ Num.isNaN index = false
                /\ Num.ltb index
                     (Finite (if truthy (portfolio program) then 9 else 7) 0)
                   = true.
Proof.
  intros Hne. unfold columns.
  assert ((0 <? length (column program))%nat = true) as ->.
  { destruct (column program); [done|reflexivity]. }
  rewrite list_elem_of_In, filter_In, in_map_iff, ofZ_headerLength.
  rewrite andb_true_iff, negb_true_iff. split.
  - intros [(entry & <- & Hin) [Hnan Hlt]]. exists entry.
    by rewrite list_elem_of_In.
  - intros (entry & Hin & -> & Hnan & Hlt). split; [|done].
    exists entry. by rewrite <- list_elem_of_In.
Qed.

Lemma columns_digit `{Host} program index z :
  index ∈ columns program -> index = Finite z 0 -> 0 <= z ->
  digitIndex index z.
Proof.
  intros Hin -> Hz. split; [done|]. split; [done|].
  destruct (decide (column program = [])) as [Hempty|Hne].
  - unfold columns in Hin. rewrite Hempty in Hin. simpl in Hin.
    rewrite defaultColumns_eq in Hin.
    apply list_elem_of_fmap in Hin as (z' & [= ->] & Hin).
    destruct (truthy (portfolio program));
      repeat (apply elem_of_cons in Hin as [->|Hin]); try lia;
      by apply elem_of_nil in Hin.
  - apply columns_kept in Hin as (_ & _ & _ & _ & Hlt); [|done].
    apply ltb_whole_bound in Hlt.
    destruct (truthy (portfolio program)); lia.
Qed.

(** When every selected index is a non-negative whole number, the sort
    without comparator puts the selection in ascending order. *)
Lemma whole_indices_sorted `{Host} program :
  (forall index, index ∈ columns program -> exists z, 0 <= z /\ index = Finite z 0) ->
  exists sc,
    sortedColumns program = Ok sc
    /\ columns program ≡ₚ sc
    /\ StronglySorted
         (fun a b => exists za zb, digitIndex a za /\ digitIndex b zb /\ za <= zb)
         sc.
Proof.
  intros Hwhole.
  destruct (sortedColumns_Ok program) as (sc & Hsc & Hperm & Hss).
  exists sc. split; [done|]. split; [done|].
  eapply StronglySorted_mono_elem; [|exact Hss].
  intros a b Ha Hb (s & Hs & Hle).
  rewrite <- Hperm in Ha, Hb.
  destruct (Hwhole a Ha) as (za & Hza & Ea).
  destruct (Hwhole b Hb) as (zb & Hzb & Eb).
  pose proof (columns_digit program a za Ha Ea Hza) as Hda.
  pose proof (columns_digit program b zb Hb Eb Hzb) as Hdb.
  exists za, zb. split; [done|]. split; [done|].
  rewrite signOf_defaultCompare in Hs. injection Hs as <-.
  rewrite (defaultSign_digit a b za zb Hda Hdb) in Hle. lia.
Qed.

(** Without [--specific] the selection is every column, in order. *)
Lemma sortedColumns_default `{Host} program :
  column program = [] -> sortedColumns program = Ok (defaultColumns program).
Proof.
  intros Hempty.
  assert (Hcols : columns program = defaultColumns program).
  { unfold columns. by rewrite Hempty. }
  assert (Hdigits : forall index, index ∈ columns program ->
            exists z, 0 <= z /\ index = Finite z 0).
  { intros index. rewrite Hcols, defaultColumns_eq.
    intros (z & -> & Hin)%list_elem_of_fmap. exists z. split; [|done].
    destruct (truthy (portfolio program));
      repeat (apply elem_of_cons in Hin as [->|Hin]); try lia;
      by apply elem_of_nil in Hin. }
  destruct (whole_indices_sorted program Hdigits) as (sc & Hsc & Hperm & Hss).
  rewrite Hsc. f_equal. rewrite Hcols in Hperm. symmetry.
  eapply StronglySorted_unique_strong; [| |exact Hss|exact Hperm].
  - intros x1 x2 _ _ (za & zb & [-> _] & [-> _] & Hab)
      (zb' & za' & [[= ->] _] & [[= ->] _] & Hba).
    f_equal. lia.
  - rewrite defaultColumns_eq.
    destruct (truthy (portfolio program)); simpl;
      repeat (constructor; [repeat constructor|]); try constructor;
      eexists _, _; (split; [split; [reflexivity|lia]|]);
      (split; [split; [reflexivity|lia]|lia]).
Qed.

Lemma at_index_7 (a0 a1 a2 a3 a4 a5 a6 : val) :
  map (fun index => at_index [a0; a1; a2; a3; a4; a5; a6] index)
      (map (fun z => Finite z 0) [0; 1; 2; 3; 4; 5; 6])
  = [a0; a1; a2; a3; a4; a5; a6].
Proof. reflexivity. Qed.

Lemma at_index_9 (a0 a1 a2 a3 a4 a5 a6 a7 a8 : val) :
  map (fun index => at_index [a0; a1; a2; a3; a4; a5; a6; a7; a8] index)
      (map (fun z => Finite z 0) [0; 1; 2; 3; 4; 5; 6; 7; 8])
  = [a0; a1; a2; a3; a4; a5; a6; a7; a8].
Proof. reflexivity. Qed.

Lemma header_default `{Host} program :
  map (fun index => at_index (defaultHeader program) index) (defaultColumns program)
  = defaultHeader program.
Proof.
  rewrite defaultColumns_eq. unfold defaultHeader.
  destruct (truthy (portfolio program)); simpl;
    [apply at_index_9|apply at_index_7].
Qed.

Lemma values_default `{Host} program record dv :
  defaultValues program record = Ok dv ->
  values program (defaultColumns program) record = Ok dv.
Proof.
  unfold values. intros Hdv. rewrite Hdv, defaultColumns_eq.
  unfold mbind, result_bind. f_equal. unfold defaultValues in Hdv.
  destruct (truthy (portfolio program)).
  - destruct (get record "portfolio_estimated_value"); try discriminate.
    injection Hdv as <-. apply at_index_9.
  - injection Hdv as <-. apply at_index_7.
Qed.

Lemma filter_none {A} (p : A -> bool) (l : list A) :
  (forall a, a ∈ l -> p a = false) -> List.filter p l = [].
Proof.
  induction l as [|a l IH]; simpl; intros Hp; [done|].
  rewrite (Hp a) by left. apply IH. intros b Hb. apply Hp. by right.
Qed.

(** C4, as stated, fails: with [--specific abc,12] no entry is valid,
    and the row is empty instead of the whole natural-order row. *)
Lemma invalid_specific_is_not_identity :
  ~ (forall (H : Host) program record sc dv,
       column program <> [] ->
       (forall entry, entry ∈ column program -> droppedEntry program entry) ->
       sortedColumns program = Ok sc ->
       defaultValues program record = Ok dv ->
       values program sc record = Ok dv).
Proof.
  intros Hclaim.
  set (program :=
    {| opt_convert := "USD"; opt_find := []; opt_top := Num.ofZ 10;
       opt_portfolio := VUndefined; opt_specific := ["abc"; "12"]%string;
       opt_rank := Num.ofZ 0 |}).
  set (record := coin "1" "BTC" "100.5" "-0.5" "5000").
  assert (Hsc : sortedColumns program = Ok []) by (vm_compute; reflexivity).
  destruct (defaultValues program record) as [dv|] eqn:Hdv;
    [|vm_compute in Hdv; discriminate].
  specialize (Hclaim v8Host program record [] dv).
  assert (Hrow : values program [] record = Ok dv).
  { apply Hclaim; [discriminate| |exact Hsc|exact Hdv].
    intros entry Hin.
    repeat (apply elem_of_cons in Hin as [->|Hin]);
      [by left|by right|by apply elem_of_nil in Hin]. }
  vm_compute in Hdv. injection Hdv as <-.
  vm_compute in Hrow. discriminate.
Qed.

(** C4, amended: when [--specific] is given and every entry is dropped
    (not a number, or not below the header length), the column
    selection is empty: the header has no column and every row is empty.
    The identity projection, all columns in natural order, is what a run
    without [--specific] gives. *)
Theorem invalid_specific_selects_nothing `{Host}
    (program : options) (portfolioCoins : gmap string val) :
  (column program <> [] ->
   (forall entry, entry ∈ column program -> droppedEntry program entry) ->
   sortedColumns program = Ok []
   /\ header program = Ok []
   /\ forall data rws,
        rows program portfolioCoins data = Ok rws ->
        Forall (fun row => row = []) rws)
  /\ (column program = [] ->
      sortedColumns program = Ok (defaultColumns program)
      /\ header program = Ok (defaultHeader program)
      /\ forall record dv,
           defaultValues program record = Ok dv ->
           values program (defaultColumns program) record = Ok dv).
Proof.
  split.
  - intros Hne Hall.
    assert (Hcols : columns program = []).
    { unfold columns.
      assert ((0 <? length (column program))%nat = true) as ->.
      { destruct (column program); [done|reflexivity]. }
      apply filter_none. intros index Hin.
      apply list_elem_of_fmap in Hin as (entry & -> & Hin).
      destruct (Hall entry Hin) as [Hnan|Hlt].
      - unfold isNaN in Hnan. by rewrite Hnan.
      - rewrite Hlt. apply andb_false_r. }
    destruct (sortedColumns_Ok program) as (sc & Hsc & Hperm & _).
    rewrite Hcols in Hperm. apply Permutation_nil in Hperm. subst sc.
    split; [done|]. split; [unfold header; by rewrite Hsc|].
    intros data rws. unfold rows. rewrite Hsc. simpl.
    destruct (filterStage program portfolioCoins data) as [filtered|]; simpl;
      [|discriminate].
    destruct (mapM (editedRecord program portfolioCoins) filtered) as [edited|];
      simpl; [|discriminate].
    destruct (sortStage program edited) as [sorted|]; simpl; [|discriminate].
    intros Hm. apply mapM_Ok in Hm.
    induction Hm as [|record row sorted' rws' Hrow _ IH]; constructor; auto.
    apply values_length in Hrow. by destruct row.
  - intros Hempty.
    pose proof (sortedColumns_default program Hempty) as Hsc.
    split; [done|]. split.
    + unfold header. rewrite Hsc. simpl. f_equal. apply header_default.
    + apply values_default.
Qed.

Lemma invalid_specific_selects_nothing_witness :
  header {| opt_convert := "USD"; opt_find := []; opt_top := Num.ofZ 10;
            opt_portfolio := VUndefined; opt_specific := ["abc"; "12"]%string;
            opt_rank := Num.ofZ 0 |} = Ok []
  /\ Forall (fun row : list val => row = []) [[]]
  /\ header defaults
     = Ok (map VStr ["Rank"; "Coin"; "Price USD"; "Change 1H"; "Change 24H";
                     "Change 7D"; "Market Cap USD"]%string).
Proof.
  destruct (invalid_specific_selects_nothing
    {| opt_convert := "USD"; opt_find := []; opt_top := Num.ofZ 10;
       opt_portfolio := VUndefined; opt_specific := ["abc"; "12"]%string;
       opt_rank := Num.ofZ 0 |} ∅) as [Hgiven _].
  destruct Hgiven as (_ & Hh & Hrows).
  - discriminate.
  - intros entry Hin. unfold column in Hin. simpl in Hin.
    apply elem_of_cons in Hin as [->|Hin]; [left; reflexivity|].
    apply elem_of_cons in Hin as [->|Hin]; [right; reflexivity|].
    by apply elem_of_nil in Hin.
  - split; [exact Hh|]. split.
    + apply (Hrows [coin "1" "BTC" "100.5" "-0.5" "5000"]).
      vm_compute. reflexivity.
    + destruct (invalid_specific_selects_nothing defaults ∅) as [_ Habsent].
      destruct (Habsent eq_refl) as (_ & Hd & _). exact Hd.
Defined.

(** C5: the filter of [columns] has no lower bound.  With
    [--specific 0,-1] the index [-1] stays in the selection, and the
    header and every row read outside the array and get [undefined] for
    it. *)
Theorem negative_index_is_kept :
  let program :=
    {| opt_convert := "USD"; opt_find := []; opt_top := Num.ofZ 10;
       opt_portfolio := VUndefined; opt_specific := list_ "0,-1";
       opt_rank := Num.ofZ 0 |} in
  columns program = [Finite 0 0; Finite (-1) 0]
  /\ sortedColumns program = Ok [Finite (-1) 0; Finite 0 0]
  /\ header program = Ok [VUndefined; VStr "Rank"]
  /\ rows program ∅ [coin "1" "BTC" "100.5" "-0.5" "5000"]
     = Ok [[VUndefined; VNum (Finite 1 0)]].
Proof. vm_compute. repeat split. Qed.


(** ** The sort stage *)

Lemma comparator_noSortKey `{Host} program recordA recordB :
  noSortKey program = true ->
  comparator program recordA recordB = Ok (Finite (-1) 0).
Proof. unfold noSortKey, comparator. by intros ->. Qed.

Section ConstantComparator.
Context {A : Type} (cmp : A -> A -> result number).
Hypothesis Hcmp : forall a b, cmp a b = Ok (Finite (-1) 0).

Lemma runLoop_constant rest : forall previous k,
  V8.runLoop cmp true previous rest k = Ok (k + length rest)%nat.
Proof.
  induction rest as [|c rest IH]; intros previous k; simpl.
  - by rewrite Nat.add_0_r.
  - unfold V8.Compare. rewrite Hcmp. simpl. rewrite IH. f_equal. lia.
Qed.

(** A comparator that answers [-1] to every question tells V8 that
    the whole array is one descending run, and the run is reversed. *)
Lemma ArrayTimSortImpl_constant l :
  V8.ArrayTimSortImpl cmp l = Ok (reverse l).
Proof.
  unfold V8.ArrayTimSortImpl.
  destruct l as [|x0 [|x1 rest]]; try reflexivity.
  change (length (x0 :: x1 :: rest) <? 2)%nat with false. cbv iota.
  unfold V8.CountAndMakeRun, V8.Compare. rewrite Hcmp. simpl.
  rewrite runLoop_constant. simpl.
  rewrite (take_ge rest (length rest)), (drop_ge rest (length rest)) by lia.
  rewrite app_nil_r.
  set (r := reverse (x0 :: x1 :: rest)).
  assert (Hlen : length r = S (S (length rest))).
  { unfold r. by rewrite length_reverse. }
  rewrite take_ge, drop_ge by lia. reflexivity.
Qed.
End ConstantComparator.

Lemma sortStage_reverses_on_V8 program records :
  noSortKey program = true ->
  sortStage program records = Ok (reverse records).
Proof.
  intros Hno. unfold sortStage. simpl.
  apply ArrayTimSortImpl_constant. intros a b.
  by apply comparator_noSortKey.
Qed.

(** C6: for rank 0, and for a rank without key, the comparator answers
    [-1] whatever it is asked, which is not a way to say "leave the
    order": on V8 (Node 11 and later) the records come out in reverse
    order.  Here on three records with the default rank 0, and with
    rank 7, for which [keysMap] has no key. *)
Theorem unsorted_ranks_reverse_on_V8 :
  let records :=
    [coin "1" "BTC" "100" "1" "500"; coin "2" "ETH" "10" "1" "50";
     coin "3" "XRP" "1" "1" "5"] in
  sortStage defaults records = Ok (reverse records)
  /\ sortStage {| opt_convert := "USD"; opt_find := []; opt_top := Num.ofZ 10;
                  opt_portfolio := VUndefined; opt_specific := [];
                  opt_rank := Num.ofZ 7 |} records = Ok (reverse records)
  /\ reverse records <> records
  /\ (rows defaults ∅ records ≫= fun rws => Ok (map (fun row => row !! 1%nat) rws))
     = Ok [Some (VStr "XRP"); Some (VStr "ETH"); Some (VStr "BTC")].
Proof.
  intros records. split; [by apply sortStage_reverses_on_V8|].
  split; [by apply sortStage_reverses_on_V8|].
  split; [vm_compute; discriminate|vm_compute; reflexivity].
Qed.

(** *** Comparing by a numeric field *)

Lemma strip_sgn fuel : forall m e, Z.sgn (Num.strip fuel m e).1 = Z.sgn m.
Proof.
  induction fuel as [|fuel IH]; intros m e; simpl; [done|].
  destruct (m =? 0) eqn:E0; [apply Z.eqb_eq in E0; by subst|].
  destruct (m mod 10 =? 0) eqn:E10; [|done].
  apply Z.eqb_eq in E10. apply Z.eqb_neq in E0.
  rewrite IH. pose proof (Z.div_mod m 10 ltac:(lia)) as Hdiv.
  rewrite E10 in Hdiv. lia.
Qed.

Lemma sgn_finite m e : Num.sgn (Num.finite m e) = Z.sgn m.
Proof.
  unfold Num.finite, Num.normal.
  pose proof (strip_sgn (S (Z.to_nat (Z.log2 (Z.abs m)))) m e) as Hs.
  destruct (Num.strip _ m e) as [m' e']. exact Hs.
Qed.

Lemma isNaN_finite m e : Num.isNaN (Num.finite m e) = false.
Proof. unfold Num.finite. by destruct (Num.normal m e). Qed.

Lemma pow10_pos k : 0 <= k -> 0 < 10 ^ k.
Proof. intros. by apply Z.pow_pos_nonneg. Qed.

Lemma pow10_split E M e : E <= M -> M <= e ->
  10 ^ (e - E) = 10 ^ (e - M) * 10 ^ (M - E).
Proof.
  intros. rewrite <- Z.pow_add_r by lia. f_equal. lia.
Qed.

(** The difference of two decimals has the sign of the difference of
    their mantissas on any common exponent. *)
Lemma sgn_sub_scaled E ma ea mb eb :
  E <= ea -> E <= eb ->
  Num.sgn (Num.sub (Finite mb eb) (Finite ma ea))
  = Z.sgn (mb * 10 ^ (eb - E) - ma * 10 ^ (ea - E)).
Proof.
  intros Ha Hb. unfold Num.sub, Num.neg, Num.add, Num.align.
  rewrite sgn_finite.
  set (M := Z.min eb ea).
  assert (HM : M <= eb /\ M <= ea /\ E <= M) by (unfold M; lia). clearbody M.
  rewrite (pow10_split E M eb), (pow10_split E M ea) by lia.
  replace (mb * (10 ^ (eb - M) * 10 ^ (M - E)) - ma * (10 ^ (ea - M) * 10 ^ (M - E)))
    with ((mb * 10 ^ (eb - M) + - ma * 10 ^ (ea - M)) * 10 ^ (M - E)) by ring.
  rewrite Z.sgn_mul, (Z.sgn_pos (10 ^ (M - E))) by (apply pow10_pos; lia).
  by rewrite Z.mul_1_r.
Qed.

Lemma isNaN_sub_finite ma ea mb eb :
  Num.isNaN (Num.sub (Finite mb eb) (Finite ma ea)) = false.
Proof.
  unfold Num.sub, Num.neg, Num.add, Num.align. apply isNaN_finite.
Qed.

Lemma geb_scaled E ma ea mb eb :
  E <= ea -> E <= eb ->
  mb * 10 ^ (eb - E) <= ma * 10 ^ (ea - E) ->
  Num.geb (Finite ma ea) (Finite mb eb) = true.
Proof.
  intros Ha Hb Hle. unfold Num.geb, Num.compare, Num.align.
  set (M := Z.min ea eb).
  assert (HM : M <= eb /\ M <= ea /\ E <= M) by (unfold M; lia). clearbody M.
  rewrite (pow10_split E M eb), (pow10_split E M ea) in Hle by lia.
  pose proof (pow10_pos (M - E) ltac:(lia)) as Hpos.
  assert (mb * 10 ^ (eb - M) <= ma * 10 ^ (ea - M)) as Hc by nia.
  destruct (Z.compare_spec (ma * 10 ^ (ea - M)) (mb * 10 ^ (eb - M)));
    try done.
  lia.
Qed.

Lemma gtb_one r :
  Num.gtb r (Finite 1 0) = true ->
  Num.eqb r (Finite 0 0) = false /\ Num.eqb r (Finite 1 0) = false.
Proof.
  unfold Num.gtb, Num.ltb, Num.eqb, Num.compare, Num.align.
  destruct r as [|[]|m e]; try done.
  rewrite (Z.min_comm e 0). set (M := Z.min 0 e).
  assert (HM : M <= 0 /\ M <= e) by (unfold M; lia). clearbody M.
  pose proof (pow10_pos (0 - M) ltac:(lia)) as Hpos.
  destruct (Z.compare_spec (1 * 10 ^ (0 - M)) (m * 10 ^ (e - M))); try done.
  intros _. split.
  - destruct (Z.compare_spec (m * 10 ^ (e - M)) (0 * 10 ^ (0 - M))); try done.
    lia.
  - destruct (Z.compare_spec (m * 10 ^ (e - M)) (1 * 10 ^ (0 - M))); try done.
    lia.
Qed.

Lemma insert_truthy (m : gmap string val) (i s : string) :
  s <> ""%string ->
  (forall k v, m !! k = Some v -> truthy v = true) ->
  forall k v, <[i := VStr s]> m !! k = Some v -> truthy v = true.
Proof.
  intros Hs Hm k v [[_ <-]|[_ Hl]]%lookup_insert_Some; [|eauto].
  simpl. by destruct s.
Qed.

(** Every key of [keysMap] names a field. *)
Lemma keysMap_truthy `{Host} program k v :
  keysMap program !! k = Some v -> truthy v = true.
Proof.
  revert k v. unfold keysMap.
  destruct (truthy (portfolio program));
    repeat (apply insert_truthy; [key_neq|]);
    intros k v Hk; by rewrite lookup_empty in Hk.
Qed.

Lemma comparator_numeric `{Host} program key recordA recordB :
  Num.gtb (rank program) (Finite 1 0) = true ->
  keysMap program !! Num.toString (rank program) = Some (VStr key) ->
  comparator program recordA recordB
  = Ok (Num.sub (ToNumber (get recordB key)) (ToNumber (get recordA key))).
Proof.
  intros [H0 H1]%gtb_one Hkey.
  assert (Hget : get (keysMap program) (Num.toString (rank program)) = VStr key).
  { unfold get. by rewrite Hkey. }
  unfold comparator. rewrite Hget.
  rewrite (keysMap_truthy program _ _ Hkey), H0, H1. reflexivity.
Qed.

Lemma common_exponent (key : string) (records : list (gmap string val)) :
  exists E, forall record m e,
    record ∈ records -> get record key = VNum (Finite m e) -> E <= e.
Proof.
  induction records as [|r records [E IH]].
  - exists 0. intros ??? Hin. by apply elem_of_nil in Hin.
  - destruct (get r key) as [| | |[| |m0 e0]|] eqn:Er;
      try (exists E; intros record m e [->|Hin]%elem_of_cons Hg;
           [congruence|eauto]).
    exists (Z.min E e0). intros record m e [->|Hin]%elem_of_cons Hg.
    + rewrite Er in Hg. injection Hg as -> ->. lia.
    + pose proof (IH record m e Hin Hg). lia.
Qed.

(** For a rank above 1 with a key, and records that all hold a decimal
    in that field, the sort stage returns the records in descending
    order of the field. *)
Lemma sortStage_descending `{Host} program key records :
  Num.gtb (rank program) (Finite 1 0) = true ->
  keysMap program !! Num.toString (rank program) = Some (VStr key) ->
  (forall record, record ∈ records -> exists m e, get record key = VNum (Finite m e)) ->
  exists sorted,
    sortStage program records = Ok sorted
    /\ records ≡ₚ sorted
    /\ StronglySorted
         (fun a b => Num.geb (ToNumber (get a key)) (ToNumber (get b key)) = true)
         sorted.
Proof.
  intros Hrank Hkey Hnum.
  destruct (common_exponent key records) as [E HE].
  assert (Hsign : forall a b, a ∈ records -> b ∈ records ->
    signOf (comparator program) a b
    = Some (Z.sgn (scaled E (get b key) - scaled E (get a key)))).
  { intros a b Ha Hb. unfold signOf.
    rewrite (comparator_numeric program key a b Hrank Hkey).
    destruct (Hnum a Ha) as (ma & ea & Ea). destruct (Hnum b Hb) as (mb & eb & Eb).
    rewrite Ea, Eb. simpl ToNumber. rewrite isNaN_sub_finite. f_equal.
    apply sgn_sub_scaled; eauto. }
  assert (Hcons : consistent (comparator program) records).
  { split.
    - intros a b Ha Hb. rewrite Hsign by done. eauto.
    - intros a Ha. rewrite Hsign by done. f_equal. rewrite Z.sub_diag. done.
    - intros a b Ha Hb. rewrite !Hsign by done. intros [= E0]. f_equal.
      pose proof (Z.sgn_spec (scaled E (get b key) - scaled E (get a key))).
      pose proof (Z.sgn_spec (scaled E (get a key) - scaled E (get b key))).
      lia.
    - intros s a b c Ha Hb Hc. rewrite !Hsign by done.
      intros [= <-] [= E0]. f_equal.
      pose proof (Z.sgn_spec (scaled E (get b key) - scaled E (get a key))).
      pose proof (Z.sgn_spec (scaled E (get c key) - scaled E (get b key))).
      pose proof (Z.sgn_spec (scaled E (get c key) - scaled E (get a key))).
      lia. }
  destruct (arraySort_sorts _ _ _ Hcons) as (sorted & Hsort & Hperm & Hss).
  exists sorted. split; [exact Hsort|]. split; [exact Hperm|].
  eapply StronglySorted_mono_elem; [|exact Hss].
  intros a b Ha Hb (s & Hs & Hle).
  rewrite <- Hperm in Ha, Hb. rewrite Hsign in Hs by done.
  injection Hs as <-.
  destruct (Hnum a Ha) as (ma & ea & Ea). destruct (Hnum b Hb) as (mb & eb & Eb).
  rewrite Ea, Eb in *. simpl in *.
  apply (geb_scaled E); eauto.
  pose proof (Z.sgn_spec (mb * 10 ^ (eb - E) - ma * 10 ^ (ea - E))). lia.
Qed.

Lemma sortStage_rank6_caps `{Host} :
  sortStage rank6 [withCap 5; withCap 500; withCap 50]
  = Ok [withCap 500; withCap 50; withCap 5].
Proof.
  destruct (sortStage_descending rank6 "market_cap_usd"
              [withCap 5; withCap 500; withCap 50])
    as (sorted & Hsort & Hperm & Hss).
  - reflexivity.
  - reflexivity.
  - intros record Hin.
    repeat (apply elem_of_cons in Hin as [->|Hin]);
      try (by apply elem_of_nil in Hin); eexists _, _; reflexivity.
  - rewrite Hsort. f_equal.
    eapply StronglySorted_unique_strong; [|exact Hss| |].
    + intros x1 x2 H1 H2 Hge1 Hge2. rewrite <- Hperm in H1.
      repeat (apply elem_of_cons in H1 as [->|H1]);
        try (by apply elem_of_nil in H1);
        repeat (apply elem_of_cons in H2 as [->|H2]);
        try (by apply elem_of_nil in H2);
        try reflexivity;
        vm_compute in Hge1, Hge2; discriminate.
    + repeat constructor.
    + rewrite <- Hperm.
      apply (Permutation_cons_app [withCap 500; withCap 50] []). reflexivity.
Qed.

(** C8: for every rank above 1 that [keysMap] maps to a key, and every
    sequence of records that all hold a decimal number in the field of
    that key, the sort stage returns the records permuted into
    descending order of the field; on the market caps [5, 500, 50] with
    rank 6 it returns [500, 50, 5]. *)
Theorem sort_descending_by_mapped_field :
  (forall (H : Host) (program : options) (key : string)
          (records : list (gmap string val)),
     Num.gtb (rank program) (Finite 1 0) = true ->
     keysMap program !! Num.toString (rank program) = Some (VStr key) ->
     (forall record, record ∈ records ->
        exists m e, get record key = VNum (Finite m e)) ->
     exists sorted,
       sortStage program records = Ok sorted
       /\ records ≡ₚ sorted
       /\ StronglySorted
            (fun a b =>
               Num.geb (ToNumber (get a key)) (ToNumber (get b key)) = true)
            sorted)
  /\ (forall H : Host,
        sortStage rank6 [withCap 5; withCap 500; withCap 50]
        = Ok [withCap 500; withCap 50; withCap 5]).
Proof.
  split.
  - intros H program key records. apply sortStage_descending.
  - intros H. apply sortStage_rank6_caps.
Qed.

Lemma sort_descending_by_mapped_field_witness :
  exists sorted,
    sortStage rank6 [withCap 5; withCap 500; withCap 50] = Ok sorted
    /\ [withCap 5; withCap 500; withCap 50] ≡ₚ sorted
    /\ StronglySorted
         (fun a b =>
            Num.geb (ToNumber (get a "market_cap_usd"))
                    (ToNumber (get b "market_cap_usd")) = true)
         sorted.
Proof.
  destruct sort_descending_by_mapped_field as [Hgeneral _].
  apply (Hgeneral v8Host rank6 "market_cap_usd"%string).
  - reflexivity.
  - reflexivity.
  - intros record Hin.
    apply elem_of_cons in Hin as [->|Hin]; [eexists _, _; reflexivity|].
    apply elem_of_cons in Hin as [->|Hin]; [eexists _, _; reflexivity|].
    apply elem_of_cons in Hin as [->|Hin]; [eexists _, _; reflexivity|].
    by apply elem_of_nil in Hin.
Defined.

(** * Further properties of the code *)

(** ** Options *)



Lemma splitOn_not_nil sep s : JsString.splitOn sep s <> [].
Proof.
  destruct s as [|c s]; simpl; [done|].
  destruct (Ascii.eqb c sep); [done|].
  by destruct (JsString.splitOn sep s).
Qed.

Lemma join_cons_char sep c p ps :
  join sep (String c p :: ps) = String c (join sep (p :: ps)).
Proof. by destruct ps. Qed.

Lemma join_splitOn s : join "," (JsString.splitOn "," s) = s.
Proof.
  induction s as [|c s IH]; simpl; [done|].
  destruct (Ascii.eqb_spec c ",") as [->|Hc].
  - pose proof (splitOn_not_nil "," s) as Hne.
    destruct (JsString.splitOn "," s) as [|p ps]; [done|].
    simpl in *. by rewrite IH.
  - pose proof (splitOn_not_nil "," s) as Hne.
    destruct (JsString.splitOn "," s) as [|p ps]; [done|].
    rewrite join_cons_char. by rewrite IH.
Qed.

Lemma splitOn_no_separator s :
  Forall (fun piece => occurs "," piece = false) (JsString.splitOn "," s).
Proof.
  induction s as [|c s IH]; simpl; [by repeat constructor|].
  destruct (Ascii.eqb c ",") eqn:Ec; [by constructor|].
  destruct (JsString.splitOn "," s) as [|p ps].
  - constructor; [simpl; by rewrite Ec|constructor].
  - apply Forall_cons in IH as [Hp Hps]. constructor; [|done].
    simpl. by rewrite Ec.
Qed.

(** X2: [list] cuts its argument at the commas and loses nothing: no
    piece holds a comma, joining the pieces with commas gives the
    argument back, and the list is empty only for the empty argument
    (so [a,] has a second, empty piece). *)
Theorem list_splits_at_commas (value : string) :
  join "," (list_ value) = value
  /\ Forall (fun piece => occurs "," piece = false) (list_ value)
  /\ (list_ value = [] <-> value = ""%string).
Proof.
  unfold list_. destruct (String.eqb_spec value "") as [->|Hne].
  - repeat split; done.
  - split; [apply join_splitOn|]. split; [apply splitOn_no_separator|].
    split; [|done]. intros Hnil. by apply splitOn_not_nil in Hnil.
Qed.




(** X4: with a find list or in portfolio mode the request asks for 1500
    coins, whatever [--top] says; the currency of the request is the
    upper case of the selected one. *)
Theorem request_limit_1500_when_filtering `{Host} (program : options) :
  find program <> [] \/ truthy (portfolio program) = true ->
  sourceUrl program
  = "https://api.coinmarketcap.com/v1/ticker/?limit=1500&convert="
      +:+ JsString.toUpperCase (opt_convert program).
Proof.
  intros Hmode. unfold sourceUrl, top, convert.
  assert ((0 <? length (find program))%nat || truthy (portfolio program) = true)
    as ->.
  { destruct Hmode as [Hf| ->]; [|apply orb_true_r].
    destruct (find program); [done|reflexivity]. }
  reflexivity.
Qed.

Lemma request_limit_1500_when_filtering_witness :
  sourceUrl {| opt_convert := "eur"; opt_find := list_ "btc,eth";
               opt_top := Num.ofZ 3; opt_portfolio := VUndefined;
               opt_specific := []; opt_rank := Num.ofZ 0 |}
  = "https://api.coinmarketcap.com/v1/ticker/?limit=1500&convert=EUR"%string.
Proof.
  apply (request_limit_1500_when_filtering
    {| opt_convert := "eur"; opt_find := list_ "btc,eth";
       opt_top := Num.ofZ 3; opt_portfolio := VUndefined;
       opt_specific := []; opt_rank := Num.ofZ 0 |}).
  left. vm_compute. discriminate.
Defined.

(** ** The filter stage, in every mode *)

Lemma someM_matches record ks s :
  get record "symbol" = VStr s ->
  someM (matches record) ks
  = Ok (existsb (fun keyword =>
                   String.eqb (JsString.toLowerCase s)
                              (JsString.toLowerCase keyword)) ks).
Proof.
  intros Hs. apply someM_pure. intros keyword _.
  unfold matches, symbolLower. by rewrite Hs.
Qed.

Lemma keep_keywords program portfolioCoins record :
  keep program portfolioCoins record
  = match keywords program portfolioCoins with
    | [] => Ok (negb (truthy (portfolio program)))
    | ks => someM (matches record) ks
    end.
Proof.
  unfold keep, keywords. destruct (truthy (portfolio program)).
  - by destruct (map fst (map_to_list portfolioCoins)).
  - by destruct (find program).
Qed.

Lemma filterM_TypeError {A} (p : A -> result bool) (l : list A) :
  filterM p l = TypeError <-> exists a, a ∈ l /\ p a = TypeError.
Proof.
  induction l as [|a l IH]; simpl.
  - split; [discriminate|]. intros (a & Ha & _). by apply elem_of_nil in Ha.
  - destruct (p a) as [b|] eqn:Ea; simpl.
    + destruct (filterM p l) as [rest|]; simpl.
      * split; [discriminate|]. intros (a' & [->|Ha']%elem_of_cons & Hp).
        -- congruence.
        -- assert (@Ok (list A) rest = TypeError) as Hbad; [|discriminate].
           apply IH. eauto.
      * split; [|done]. intros _.
        destruct (proj1 IH eq_refl) as (a' & Ha' & Hp).
        exists a'. split; [by right|done].
    + split; [|done]. intros _. exists a. split; [by left|done].
Qed.

(** X5: without [--find] and outside portfolio mode the filter passes
    the response on as it is; it does not look at the records, so
    records without a symbol pass too. *)
Theorem filter_unrestricted_keeps_all `{Host}
    (program : options) (portfolioCoins : gmap string val)
    (data : list (gmap string val)) :
  truthy (portfolio program) = false ->
  find program = [] ->
  filterStage program portfolioCoins data = Ok data.
Proof.
  intros Hp Hf. unfold filterStage.
  rewrite (filterM_pure _ (fun _ => true)).
  - f_equal. induction data as [|r data IH]; simpl; by f_equal.
  - intros record _. unfold keep. by rewrite Hp, Hf.
Qed.

Lemma filter_unrestricted_keeps_all_witness :
  filterStage defaults ∅ [coin "1" "BTC" "100" "1" "5"; ∅]
  = Ok [coin "1" "BTC" "100" "1" "5"; ∅].
Proof.
  apply (filter_unrestricted_keeps_all defaults ∅); reflexivity.
Defined.

(** X6: in portfolio mode the filter keeps, in their order, exactly the
    records whose symbol equals, letter case ignored, a name of the
    portfolio object; the find list plays no part. *)
Theorem filter_portfolio_exact `{Host}
    (program : options) (portfolioCoins : gmap string val)
    (data : list (gmap string val)) :
  truthy (portfolio program) = true ->
  (forall record, record ∈ data -> hasSymbol record) ->
  exists kept,
    filterStage program portfolioCoins data = Ok kept
    /\ kept `sublist_of` data
    /\ (forall record,
          record ∈ kept <->
          record ∈ data /\ exists keyword, is_Some (portfolioCoins !! keyword)
                                           /\ sameSymbol record keyword)
    /\ forall find',
         filterStage (withFind program find') portfolioCoins data = Ok kept.
Proof.
  intros Hp Hsym.
  set (ks := map fst (map_to_list portfolioCoins)).
  set (q := fun record : gmap string val =>
    existsb (fun keyword =>
      match get record "symbol" with
      | VStr s => String.eqb (JsString.toLowerCase s) (JsString.toLowerCase keyword)
      | _ => false
      end) ks).
  assert (Hkeep : forall program', portfolio program' = portfolio program ->
            forall record, record ∈ data ->
            keep program' portfolioCoins record = Ok (q record)).
  { intros program' Hsame record Hr. unfold keep. rewrite Hsame, Hp.
    destruct (Hsym record Hr) as [s Hs].
    rewrite (someM_matches record _ s Hs). unfold q. by rewrite Hs. }
  exists (List.filter q data).
  split; [apply filterM_pure, Hkeep; done|]. split; [|split].
  - clear. induction data as [|r data IH]; simpl; [constructor|].
    destruct (q r); by constructor.
  - intros record. rewrite list_elem_of_In, filter_In, <- list_elem_of_In.
    split; intros [Hin Hq]; (split; [done|]).
    + unfold q in Hq. apply existsb_exists in Hq as (keyword & Hk & Hm).
      apply list_elem_of_In in Hk.
      apply list_elem_of_fmap in Hk as ([k v] & -> & Hkv).
      apply elem_of_map_to_list in Hkv. simpl in *.
      exists k. split; [eauto|].
      destruct (get record "symbol") as [| | | |s] eqn:Es; try discriminate.
      exists s. split; [done|]. by apply String.eqb_eq.
    + destruct Hq as (keyword & [v Hv] & s & Hs & Hm).
      unfold q. apply existsb_exists. exists keyword. split.
      * apply list_elem_of_In, list_elem_of_fmap. exists (keyword, v).
        split; [done|]. by apply elem_of_map_to_list.
      * rewrite Hs. by apply String.eqb_eq.
  - intros find'. apply filterM_pure, Hkeep. reflexivity.
Qed.

Lemma filter_portfolio_exact_witness :
  exists kept,
    filterStage portfolioRun {["btc"%string := VNum (Finite 2 0)]}
      [coin "1" "BTC" "100" "1" "5"; coin "2" "ETH" "10" "1" "4"] = Ok kept
    /\ forall find',
         filterStage (withFind portfolioRun find')
           {["btc"%string := VNum (Finite 2 0)]}
           [coin "1" "BTC" "100" "1" "5"; coin "2" "ETH" "10" "1" "4"] = Ok kept.
Proof.
  destruct (filter_portfolio_exact portfolioRun
    {["btc"%string := VNum (Finite 2 0)]}
    [coin "1" "BTC" "100" "1" "5"; coin "2" "ETH" "10" "1" "4"])
    as (kept & Hk & _ & _ & Hfind).
  - reflexivity.
  - intros record Hr.
    apply elem_of_cons in Hr as [->|Hr]; [eexists; vm_compute; reflexivity|].
    apply elem_of_cons in Hr as [->|Hr]; [eexists; vm_compute; reflexivity|].
    by apply elem_of_nil in Hr.
  - exists kept. split; [exact Hk|exact Hfind].
Defined.

Lemma filterStage_TypeError `{Host}
    (program : options) (portfolioCoins : gmap string val)
    (data : list (gmap string val)) :
  filterStage program portfolioCoins data = TypeError <->
  keywords program portfolioCoins <> []
  /\ exists record, record ∈ data /\ ~ hasSymbol record.
Proof.
  unfold filterStage. rewrite filterM_TypeError.
  assert (Hkeep : forall record,
    keep program portfolioCoins record = TypeError <->
    keywords program portfolioCoins <> [] /\ ~ hasSymbol record).
  { intros record. rewrite keep_keywords.
    destruct (keywords program portfolioCoins) as [|k ks].
    - split; [discriminate|]. by intros [? _].
    - destruct (get record "symbol") as [| | | |s] eqn:Es;
        try (split;
             [intros _; split; [done|]; intros [s' Hs']; congruence
             |intros _; simpl; unfold matches, symbolLower; by rewrite Es]).
      rewrite (someM_matches record _ s Es). split; [discriminate|].
      intros [_ Hno]. destruct Hno. by exists s. }
  split.
  - intros (record & Hin & Hk). apply Hkeep in Hk as [Hks Hno]. eauto.
  - intros (Hks & record & Hin & Hno). exists record. split; [done|].
    by apply Hkeep.
Qed.

(** X7: the filter throws exactly when it has a keyword to compare with
    (a name of the portfolio in portfolio mode, an entry of the find
    list otherwise) and some record of the response has no string as
    symbol.  With no keyword (no find list, or an empty portfolio
    object) it never throws. *)
Theorem filter_throws_iff `{Host}
    (program : options) (portfolioCoins : gmap string val)
    (data : list (gmap string val)) :
  filterStage program portfolioCoins data = TypeError <->
  keywords program portfolioCoins <> []
  /\ exists record, record ∈ data /\ ~ hasSymbol record.
Proof. apply filterStage_TypeError. Qed.

(** ** Normalized records and display rows *)

Lemma editedRecord_copied program portfolioCoins record edited :
  editedRecord program portfolioCoins record = Ok edited ->
  get edited "name" = get record "name"
  /\ get edited "symbol" = get record "symbol"
  /\ get edited "last_updated" = get record "last_updated".
Proof.
  unfold editedRecord. intros He.
  destruct (truthy (portfolio program)).
  - destruct (symbolLower record) as [s|]; simpl in He; [|discriminate].
    injection He as <-. repeat split; get_insert; reflexivity.
  - injection He as <-. repeat split; get_insert; reflexivity.
Qed.

(** X8: a numeric-bearing field of a normalized record is a number or a
    falsy value, never a text to be read later: a truthy raw value is
    replaced by the number it converts to, a falsy one is kept, so the
    only string left in such a field is the empty one.  Name, symbol
    and update time are copied unchanged. *)
Theorem normalized_field_number_or_falsy
    (program : options) (portfolioCoins : gmap string val)
    (record edited : gmap string val) (k : string) :
  editedRecord program portfolioCoins record = Ok edited ->
  k ∈ numericFields program ->
  (truthy (get record k) = true ->
   get edited k = VNum (ToNumber (get record k)))
  /\ (truthy (get record k) = false -> get edited k = get record k)
  /\ (forall s, get edited k = VStr s -> s = ""%string)
  /\ get edited "name" = get record "name"
  /\ get edited "symbol" = get record "symbol"
  /\ get edited "last_updated" = get record "last_updated".
Proof.
  intros He Hk.
  rewrite (editedRecord_numeric _ _ _ _ _ He Hk).
  unfold numberOrFalsy, and_then.
  split; [by intros ->|]. split; [by intros ->|]. split.
  - destruct (truthy (get record k)) eqn:Et; [discriminate|].
    intros s Hs. rewrite Hs in Et. simpl in Et.
    destruct (String.eqb_spec s ""); [done|discriminate].
  - by apply editedRecord_copied in He.
Qed.

Lemma normalized_field_number_or_falsy_witness :
  exists edited,
    editedRecord defaults ∅ (coin "1" "BTC" "100.5" "-0.5" "") = Ok edited
    /\ get edited "price_usd" = VNum (Finite 1005 (-1))
    /\ get edited "market_cap_usd" = VStr "".
Proof.
  destruct (editedRecord_total defaults ∅ (coin "1" "BTC" "100.5" "-0.5" ""))
    as [edited He]; [by left|].
  exists edited. split; [exact He|]. split.
  - destruct (normalized_field_number_or_falsy defaults ∅
                (coin "1" "BTC" "100.5" "-0.5" "") edited "price_usd"%string He)
      as (Htruthy & _).
    + apply (bool_decide_unpack _). vm_compute. exact I.
    + apply Htruthy. reflexivity.
  - destruct (normalized_field_number_or_falsy defaults ∅
                (coin "1" "BTC" "100.5" "-0.5" "") edited "market_cap_usd"%string He)
      as (_ & Hfalsy & _).
    + apply (bool_decide_unpack _). vm_compute. exact I.
    + apply Hfalsy. reflexivity.
Defined.

Lemma append_percent_not_empty s : s +:+ "%" <> ""%string.
Proof. destruct s; discriminate. Qed.

Lemma append_percent_not_NA s : s +:+ "%" <> "NA"%string.
Proof. destruct s as [|a [|b [|c s]]]; simpl; discriminate. Qed.

Lemma styled_not_empty `{Host} c s : s <> ""%string -> styled c s <> ""%string.
Proof.
  intros Hs. unfold styled. destruct colorsEnabled; [|done].
  destruct c; discriminate.
Qed.

Lemma styled_percent_not_NA `{Host} c s : styled c (s +:+ "%") <> "NA"%string.
Proof.
  unfold styled. destruct colorsEnabled; [|apply append_percent_not_NA].
  destruct c; vm_compute; discriminate.
Qed.

Lemma getColoredChangeValueText_truthy `{Host} v :
  truthy v = true ->
  getColoredChangeValueText v
  = VStr (if Num.gtb (ToNumber v) (Finite 0 0)
          then styled Green (ToString v +:+ "%")
          else styled Red (ToString v +:+ "%")).
Proof.
  intros Hv. unfold getColoredChangeValueText, or_else, and_then.
  rewrite Hv.
  assert (Hne : forall c, truthy (VStr (styled c (ToString v +:+ "%"))) = true).
  { intros c. simpl.
    destruct (String.eqb_spec (styled c (ToString v +:+ "%")) ""); [|done].
    by destruct (styled_not_empty c (ToString v +:+ "%")
                   (append_percent_not_empty _)). }
  destruct (Num.gtb (ToNumber v) (Finite 0 0)); by rewrite Hne.
Qed.

Lemma getColoredChangeValueText_NA_iff `{Host} v :
  getColoredChangeValueText v = VStr "NA" <-> truthy v = false.
Proof.
  split; [|apply getColoredChangeValueText_falsy].
  destruct (truthy v) eqn:Hv; [|done].
  rewrite (getColoredChangeValueText_truthy v Hv).
  destruct (Num.gtb (ToNumber v) (Finite 0 0)); intros [= Hna];
    by apply styled_percent_not_NA in Hna.
Qed.

(** X9: a percent-change column shows [NA] exactly when the raw field is
    falsy (missing, [null], empty) or converts to zero or to no number;
    in every other case it shows the number followed by a percent sign,
    green when positive and red otherwise. *)
Theorem percent_column_NA_iff `{Host}
    (program : options) (portfolioCoins : gmap string val)
    (record edited : gmap string val) (k : string) (i : nat) :
  editedRecord program portfolioCoins record = Ok edited ->
  (k, i) ∈ percentChangeColumns ->
  exists dv,
    defaultValues program edited = Ok dv
    /\ (dv !! i = Some (VStr "NA") <->
        truthy (get record k) = false
        \/ Num.truthy (ToNumber (get record k)) = false)
    /\ (truthy (get record k) = true ->
        Num.truthy (ToNumber (get record k)) = true ->
        dv !! i
        = Some (VStr (styled
                        (if Num.gtb (ToNumber (get record k)) (Finite 0 0)
                         then Green else Red)
                        (Num.toString (ToNumber (get record k)) +:+ "%")))).
Proof.
  intros He Hi.
  destruct (editedRecord_defaultValues _ _ _ _ He) as (dv & Hdv & H3 & H4 & H5).
  exists dv. split; [done|].
  assert (Hk : k ∈ numericFields program).
  { unfold percentChangeColumns, numericFields in *.
    repeat (apply elem_of_cons in Hi as [[= -> ->]|Hi]);
      try (by apply elem_of_nil in Hi); set_solver. }
  assert (Hcell : dv !! i = Some (getColoredChangeValueText (get edited k))).
  { unfold percentChangeColumns in Hi.
    repeat (apply elem_of_cons in Hi as [[= -> ->]|Hi]);
      try (by apply elem_of_nil in Hi); done. }
  rewrite Hcell, (editedRecord_numeric _ _ _ _ _ He Hk).
  unfold numberOrFalsy, and_then. split.
  - split.
    + intros [= Hna]. apply getColoredChangeValueText_NA_iff in Hna.
      destruct (truthy (get record k)); [by right|by left].
    + intros Hor. f_equal. apply getColoredChangeValueText_NA_iff.
      destruct (truthy (get record k)) eqn:Et; [|done].
      destruct Hor as [?|Hz]; [done|exact Hz].
  - intros -> Hn. f_equal.
    rewrite getColoredChangeValueText_truthy by exact Hn. simpl.
    by destruct (Num.gtb (ToNumber (get record k)) (Finite 0 0)).
Qed.

Lemma percent_column_NA_iff_witness :
  exists edited dv,
    editedRecord defaults ∅ (coin "1" "BTC" "100.5" "0.0" "5") = Ok edited
    /\ defaultValues defaults edited = Ok dv
    /\ dv !! 4%nat = Some (VStr "NA").
Proof.
  destruct (editedRecord_total defaults ∅ (coin "1" "BTC" "100.5" "0.0" "5"))
    as [edited He]; [by left|].
  destruct (percent_column_NA_iff defaults ∅
              (coin "1" "BTC" "100.5" "0.0" "5") edited
              "percent_change_24h"%string 4%nat He) as (dv & Hdv & Hna & _).
  - apply (bool_decide_unpack _). vm_compute. exact I.
  - exists edited, dv. split; [exact He|]. split; [exact Hdv|].
    apply Hna. right. reflexivity.
Defined.

Lemma getColoredChangeValueText_text `{Host} v :
  exists s, getColoredChangeValueText v = VStr s /\ s <> ""%string.
Proof.
  destruct (truthy v) eqn:Hv.
  - rewrite (getColoredChangeValueText_truthy v Hv). eexists. split; [done|].
    destruct (Num.gtb (ToNumber v) (Finite 0 0));
      apply styled_not_empty, append_percent_not_empty.
  - rewrite (getColoredChangeValueText_falsy v Hv). by eexists.
Qed.

Lemma displayedMarketCap_text `{Host} (marketCap : val) :
  exists s,
    or_else (and_then marketCap (VStr (compactInteger marketCap 3))) (VStr "NA")
    = VStr s
    /\ s <> ""%string
    /\ (truthy marketCap = false -> s = "NA"%string).
Proof.
  unfold or_else, and_then. destruct (truthy marketCap) eqn:Hm.
  - simpl. destruct (String.eqb_spec (compactInteger marketCap 3) "") as [E|E];
      simpl; eexists; (split; [reflexivity|]); (split; [done|]); done.
  - rewrite Hm. by eexists.
Qed.

Lemma defaultValues_length `{Host} program record dv :
  defaultValues program record = Ok dv ->
  length dv = length (defaultHeader program).
Proof.
  rewrite length_defaultHeader. unfold defaultValues.
  destruct (truthy (portfolio program)).
  - destruct (get record "portfolio_estimated_value"); try discriminate.
    by intros [= <-].
  - by intros [= <-].
Qed.

(** X10: the natural-order row of a record has one cell per column of
    the default header (7, or 9 in portfolio mode); its first three
    cells are the record's rank, symbol and price as they are, and the
    three percent cells and the market cap cell are always non-empty
    texts, [NA] for a falsy market cap.  Building the row throws only in
    portfolio mode, when the estimated value is not a number. *)
Theorem natural_row_shape `{Host} (program : options) (record : gmap string val) :
  (defaultValues program record = TypeError <->
   truthy (portfolio program) = true
   /\ forall n, get record "portfolio_estimated_value" <> VNum n)
  /\ forall dv,
       defaultValues program record = Ok dv ->
       length dv = length (defaultHeader program)
       /\ dv !! 0%nat = Some (get record "rank")
       /\ dv !! 1%nat = Some (get record "symbol")
       /\ dv !! 2%nat = Some (get record (priceKey program))
       /\ (forall i, (3 <= i <= 6)%nat ->
             exists s, dv !! i = Some (VStr s) /\ s <> ""%string)
       /\ (truthy (get record (marketCapKey program)) = false ->
           dv !! 6%nat = Some (VStr "NA")).
Proof.
  rewrite length_defaultHeader. unfold defaultValues.
  destruct (getColoredChangeValueText_text (get record "percent_change_1h"))
    as (s3 & -> & H3).
  destruct (getColoredChangeValueText_text (get record "percent_change_24h"))
    as (s4 & -> & H4).
  destruct (getColoredChangeValueText_text (get record "percent_change_7d"))
    as (s5 & -> & H5).
  destruct (displayedMarketCap_text (get record (marketCapKey program)))
    as (s6 & -> & H6 & Hna).
  assert (Hcells : forall (tail : list val) i, (3 <= i <= 6)%nat ->
    exists s,
      ([get record "rank"; get record "symbol"; get record (priceKey program);
        VStr s3; VStr s4; VStr s5; VStr s6] ++ tail) !! i = Some (VStr s)
      /\ s <> ""%string).
  { intros tail i Hi.
    destruct i as [|[|[|[|[|[|[|i]]]]]]]; try lia; simpl; eauto. }
  destruct (truthy (portfolio program)).
  - destruct (get record "portfolio_estimated_value") as [| | |n|] eqn:Ee.
    4:{ split.
        - split; [discriminate|]. intros [_ Hn]. by destruct (Hn n).
        - intros dv [= <-]. repeat split; try done; [apply Hcells|].
          intros Hm. by rewrite (Hna Hm). }
    all: split;
      [split; [intros _; split; [done|intros n'; discriminate]|done]
      |intros dv; discriminate].
  - split; [split; [discriminate|by intros [? _]]|].
    intros dv [= <-]. repeat split; try done; [apply (Hcells [])|].
    intros Hm. by rewrite (Hna Hm).
Qed.

Lemma natural_row_shape_witness :
  exists dv,
    defaultValues defaults (coin "1" "BTC" "100.5" "-0.5" "") = Ok dv
    /\ length dv = 7%nat
    /\ dv !! 6%nat = Some (VStr "NA").
Proof.
  destruct (natural_row_shape defaults (coin "1" "BTC" "100.5" "-0.5" ""))
    as [_ Hshape].
  eexists. split; [reflexivity|].
  destruct (Hshape _ eq_refl) as (Hlen & _ & _ & _ & _ & Hna).
  split; [exact Hlen|]. apply Hna. reflexivity.
Defined.






(** ** Sort keys and column selection *)

Lemma keysMap_portfolio `{Host} program :
  truthy (portfolio program) = true ->
  keysMap program =
  <["9"%string := VStr "portfolio_estimated_value"]>
    (<["8"%string := VStr "portfolio_balance"]>
       (<["6"%string := VStr (marketCapKey program)]>
          (<["5"%string := VStr "percent_change_7d"]>
             (<["4"%string := VStr "percent_change_24h"]>
                (<["3"%string := VStr "percent_change_1h"]>
                   (<["2"%string := VStr (priceKey program)]>
                      (<["1"%string := VStr "symbol"]>
                         (<["0"%string := VStr "rank"]> ∅)))))))).
Proof.
  intros Hp. unfold keysMap. rewrite length_defaultHeader, Hp. reflexivity.
Qed.

Lemma keysMap_symbol `{Host} program :
  keysMap program !! "1"%string = Some (VStr "symbol").
Proof.
  destruct (truthy (portfolio program)) eqn:Hp.
  - rewrite (keysMap_portfolio program Hp).
    repeat (rewrite lookup_insert_ne by discriminate).
    by rewrite lookup_insert_eq.
  - unfold keysMap. rewrite Hp.
    repeat (rewrite lookup_insert_ne by discriminate).
    by rewrite lookup_insert_eq.
Qed.

(** X13: in portfolio mode the two added sort keys sit one place after
    their columns.  The header has Balance as column 7 and Estimated
    Value as column 8, but [keysMap] has no key for 7 and gives
    [portfolio_balance] for 8 and [portfolio_estimated_value] for 9: a
    rank of 7 leaves the comparator without key, and a rank of 8
    compares balances. *)
Theorem portfolio_sort_keys_shifted `{Host} (program : options) :
  truthy (portfolio program) = true ->
  defaultHeader program !! 7%nat = Some (VStr (styled Yellow "Balance"))
  /\ defaultHeader program !! 8%nat = Some (VStr (styled Yellow "Estimated Value"))
  /\ length (defaultHeader program) = 9%nat
  /\ keysMap program !! "7"%string = None
  /\ keysMap program !! "8"%string = Some (VStr "portfolio_balance")
  /\ keysMap program !! "9"%string = Some (VStr "portfolio_estimated_value")
  /\ (rank program = Finite 7 0 ->
      forall recordA recordB,
        comparator program recordA recordB = Ok (Finite (-1) 0))
  /\ (rank program = Finite 8 0 ->
      forall recordA recordB,
        comparator program recordA recordB
        = Ok (Num.sub (ToNumber (get recordB "portfolio_balance"))
                      (ToNumber (get recordA "portfolio_balance")))).
Proof.
  intros Hp.
  assert (H7 : keysMap program !! "7"%string = None).
  { rewrite (keysMap_portfolio program Hp).
    repeat (rewrite lookup_insert_ne by discriminate). apply lookup_empty. }
  assert (H8 : keysMap program !! "8"%string = Some (VStr "portfolio_balance")).
  { rewrite (keysMap_portfolio program Hp).
    rewrite lookup_insert_ne by discriminate. by rewrite lookup_insert_eq. }
  split; [unfold defaultHeader; by rewrite Hp|].
  split; [unfold defaultHeader; by rewrite Hp|].
  split; [rewrite length_defaultHeader; by rewrite Hp|].
  split; [done|]. split; [done|]. split.
  { rewrite (keysMap_portfolio program Hp). by rewrite lookup_insert_eq. }
  split.
  - intros Hr recordA recordB. apply comparator_noSortKey.
    unfold noSortKey, get. rewrite Hr.
    change (Num.toString (Finite 7 0)) with "7"%string. by rewrite H7.
  - intros Hr recordA recordB.
    apply comparator_numeric; rewrite Hr; [reflexivity|exact H8].
Qed.

Lemma portfolio_sort_keys_shifted_witness :
  keysMap portfolioRun !! "7"%string = None
  /\ defaultHeader portfolioRun !! 7%nat = Some (VStr "Balance").
Proof.
  destruct (portfolio_sort_keys_shifted portfolioRun eq_refl)
    as (Hh & _ & _ & Hk & _).
  split; [exact Hk|exact Hh].
Defined.

(** X14: with [--specific] the sorted selection holds nothing but
    numbers read from the entries, each of them below the header
    length; it is never longer than the list of entries, and an entry
    given twice is selected twice. *)
Theorem selected_columns_from_entries `{Host} (program : options) :
  column program <> [] ->
  exists sc,
    sortedColumns program = Ok sc
    /\ sc ≡ₚ List.filter
              (fun index =>
                 negb (Num.isNaN index)
                 && Num.ltb index
                      (Num.ofZ (Z.of_nat (length (defaultHeader program)))))
              (map (fun entry => ToNumber (VStr entry)) (column program))
    /\ (length sc <= length (column program))%nat
    /\ forall index, index ∈ sc ->
         exists entry,
           entry ∈ column program
           /\ index = ToNumber (VStr entry)
           /\ Num.isNaN index = false
           /\ Num.ltb index
                (Num.ofZ (Z.of_nat (length (defaultHeader program)))) = true.
Proof.
  intros Hne.
  destruct (sortedColumns_Ok program) as (sc & Hsc & Hperm & _).
  assert (Hcols : columns program =
    List.filter
      (fun index =>
         negb (Num.isNaN index)
         && Num.ltb index (Num.ofZ (Z.of_nat (length (defaultHeader program)))))
      (map (fun entry => ToNumber (VStr entry)) (column program))).
  { unfold columns. destruct (column program); [done|reflexivity]. }
  exists sc. split; [done|]. split; [by rewrite <- Hperm, Hcols|]. split.
  - rewrite <- Hperm, Hcols.
    etransitivity; [apply List.filter_length_le|]. by rewrite length_map.
  - intros index Hin. rewrite <- Hperm in Hin.
    apply columns_kept in Hin as (entry & He & -> & Hnan & Hlt); [|done].
    exists entry. rewrite ofZ_headerLength. done.
Qed.

Lemma selected_columns_from_entries_witness :
  exists sc,
    sortedColumns
      {| opt_convert := "USD"; opt_find := []; opt_top := Num.ofZ 10;
         opt_portfolio := VUndefined; opt_specific := list_ "1,x,1,9";
         opt_rank := Num.ofZ 0 |} = Ok sc
    /\ (length sc <= 4)%nat.
Proof.
  destruct (selected_columns_from_entries
    {| opt_convert := "USD"; opt_find := []; opt_top := Num.ofZ 10;
       opt_portfolio := VUndefined; opt_specific := list_ "1,x,1,9";
       opt_rank := Num.ofZ 0 |}) as (sc & Hsc & _ & Hlen & _).
  - discriminate.
  - exists sc. split; [exact Hsc|exact Hlen].
Defined.

Lemma at_index_whole (a : list val) z :
  0 <= z < 9 -> at_index a (Finite z 0) = default VUndefined (a !! Z.to_nat z).
Proof. intros Hz. enumerate z; reflexivity. Qed.

Lemma columns_whole_below `{Host} program index z :
  index ∈ columns program -> index = Finite z 0 -> 0 <= z ->
  (Z.to_nat z < length (defaultHeader program))%nat.
Proof.
  intros Hin -> Hz. rewrite length_defaultHeader.
  destruct (decide (column program = [])) as [Hempty|Hne].
  - unfold columns in Hin. rewrite Hempty in Hin. simpl in Hin.
    rewrite defaultColumns_eq in Hin.
    apply list_elem_of_fmap in Hin as (z' & [= ->] & Hin).
    destruct (truthy (portfolio program));
      repeat (apply elem_of_cons in Hin as [->|Hin]); try (simpl; lia);
      by apply elem_of_nil in Hin.
  - apply columns_kept in Hin as (_ & _ & _ & _ & Hlt); [|done].
    apply ltb_whole_bound in Hlt.
    destruct (truthy (portfolio program)); lia.
Qed.

(** X15: when every selected index is a non-negative whole number, the
    selection is put in ascending order, every header cell is a title
    of the default header, and every cell of a row is a cell of the
    record's natural-order row: nothing is read outside the arrays. *)
Theorem whole_selection_reads_inside `{Host} (program : options) :
  (forall index, index ∈ columns program ->
     exists z, 0 <= z /\ index = Finite z 0) ->
  exists sc h,
    sortedColumns program = Ok sc
    /\ header program = Ok h
    /\ columns program ≡ₚ sc
    /\ StronglySorted
         (fun a b => exists za zb,
                       a = Finite za 0 /\ b = Finite zb 0 /\ 0 <= za <= zb)
         sc
    /\ Forall (fun cell => cell ∈ defaultHeader program) h
    /\ forall record dv,
         defaultValues program record = Ok dv ->
         exists row, values program sc record = Ok row
                     /\ Forall (fun cell => cell ∈ dv) row.
Proof.
  intros Hwhole.
  destruct (whole_indices_sorted program Hwhole) as (sc & Hsc & Hperm & Hss).
  exists sc, (map (fun index => at_index (defaultHeader program) index) sc).
  split; [done|]. split; [unfold header; by rewrite Hsc|]. split; [done|].
  assert (Hread : forall a : list val,
    length a = length (defaultHeader program) ->
    Forall (fun cell => cell ∈ a) (map (fun index => at_index a index) sc)).
  { intros a Hlen. apply Forall_forall. intros cell Hcell.
    apply list_elem_of_fmap in Hcell as (index & -> & Hin).
    rewrite <- Hperm in Hin.
    destruct (Hwhole index Hin) as (z & Hz & ->).
    pose proof (columns_digit program _ z Hin eq_refl Hz) as [_ Hz9].
    pose proof (columns_whole_below program _ z Hin eq_refl Hz) as Hlt.
    rewrite at_index_whole by done.
    destruct (lookup_lt_is_Some_2 a (Z.to_nat z)) as [x Hx]; [lia|].
    rewrite Hx. simpl. eapply list_elem_of_lookup_2; eauto. }
  split; [|split].
  - eapply StronglySorted_mono; [|exact Hss].
    intros a b (za & zb & [-> Ha] & [-> Hb] & Hle). exists za, zb.
    repeat split; try done; lia.
  - by apply Hread.
  - intros record dv Hdv. unfold values. rewrite Hdv. simpl.
    eexists. split; [reflexivity|]. apply Hread.
    by apply defaultValues_length in Hdv.
Qed.

Lemma whole_selection_reads_inside_witness :
  exists sc h,
    sortedColumns
      {| opt_convert := "USD"; opt_find := []; opt_top := Num.ofZ 10;
         opt_portfolio := VUndefined; opt_specific := list_ "6,1,2.0";
         opt_rank := Num.ofZ 0 |} = Ok sc
    /\ header
         {| opt_convert := "USD"; opt_find := []; opt_top := Num.ofZ 10;
            opt_portfolio := VUndefined; opt_specific := list_ "6,1,2.0";
            opt_rank := Num.ofZ 0 |} = Ok h.
Proof.
  destruct (whole_selection_reads_inside
    {| opt_convert := "USD"; opt_find := []; opt_top := Num.ofZ 10;
       opt_portfolio := VUndefined; opt_specific := list_ "6,1,2.0";
       opt_rank := Num.ofZ 0 |}) as (sc & h & Hsc & Hh & _).
  - intros index Hin. vm_compute in Hin.
    apply elem_of_cons in Hin as [->|Hin]; [exists 6; split; [lia|reflexivity]|].
    apply elem_of_cons in Hin as [->|Hin]; [exists 1; split; [lia|reflexivity]|].
    apply elem_of_cons in Hin as [->|Hin]; [exists 2; split; [lia|reflexivity]|].
    by apply elem_of_nil in Hin.
  - exists sc, h. split; [exact Hsc|exact Hh].
Defined.

(** ** Sorting by symbol *)

Lemma strip_pow10 (k : nat) : forall fuel e,
  (k < fuel)%nat -> Num.strip fuel (10 ^ Z.of_nat k) e = (1, e + Z.of_nat k).
Proof.
  induction k as [|k IH]; intros fuel e Hf;
    (destruct fuel as [|fuel]; [lia|]).
  - simpl. f_equal. lia.
  - rewrite Nat2Z.inj_succ, Z.pow_succ_r by lia.
    pose proof (pow10_pos (Z.of_nat k) ltac:(lia)) as Hpos.
    cbn [Num.strip].
    destruct (Z.eqb_spec (10 * 10 ^ Z.of_nat k) 0) as [E|_]; [lia|].
    rewrite (Z.mul_comm 10), Z_mod_mult, Z_div_mult by lia.
    change (0 =? 0) with true. cbv iota.
    rewrite IH by lia. f_equal. lia.
Qed.

Lemma normal_pow10 (k : nat) :
  Num.normal (10 ^ Z.of_nat k) (- Z.of_nat k) = (1, 0).
Proof.
  unfold Num.normal. rewrite strip_pow10; [f_equal; lia|].
  pose proof (pow10_pos (Z.of_nat k) ltac:(lia)) as Hpos.
  rewrite Z.abs_eq by lia.
  assert (Z.of_nat k <= Z.log2 (10 ^ Z.of_nat k)).
  { rewrite <- (Z.log2_pow2 (Z.of_nat k)) at 1 by lia.
    apply Z.log2_le_mono, Z.pow_le_mono_l. lia. }
  lia.
Qed.

(** A rank that [===] finds equal to 1 is printed [1] and is not 0. *)
Lemma eqb_one r :
  Num.eqb r (Finite 1 0) = true ->
  Num.toString r = "1"%string /\ Num.eqb r (Finite 0 0) = false.
Proof.
  unfold Num.eqb, Num.compare, Num.align.
  destruct r as [|[]|m e]; try done.
  destruct (Z.compare_spec (m * 10 ^ (e - Z.min e 0)) (1 * 10 ^ (0 - Z.min e 0)))
    as [E| |]; try done.
  intros _.
  assert (Hnormal : Num.normal m e = (1, 0)).
  { destruct (Z.le_gt_cases 0 e) as [He|He].
    - rewrite Z.min_r, Z.sub_0_r in E by lia.
      change (1 * 10 ^ (0 - 0)) with 1 in E.
      pose proof (pow10_pos e He) as Hpos.
      assert (e = 0).
      { destruct (Z.eq_dec e 0) as [|Hne]; [done|].
        assert (10 <= 10 ^ e).
        { replace e with (Z.succ (e - 1)) by lia.
          rewrite Z.pow_succ_r by lia.
          pose proof (pow10_pos (e - 1) ltac:(lia)). lia. }
        destruct (Z.le_gt_cases m 0); nia. }
      subst e. change (10 ^ 0) with 1 in E.
      assert (m = 1) by lia. subst m. reflexivity.
    - rewrite Z.min_l, Z.sub_diag in E by lia.
      change (10 ^ 0) with 1 in E. rewrite Z.mul_1_r, Z.mul_1_l in E.
      replace (0 - e) with (Z.of_nat (Z.to_nat (- e))) in E by lia.
      replace e with (- Z.of_nat (Z.to_nat (- e))) by lia.
      rewrite E. apply normal_pow10. }
  split.
  - unfold Num.toString. rewrite Hnormal. reflexivity.
  - assert (Hm : 0 < m * 10 ^ (e - Z.min e 0)).
    { rewrite E. pose proof (pow10_pos (0 - Z.min e 0) ltac:(lia)). lia. }
    destruct (Z.compare_spec (m * 10 ^ (e - Z.min e 0)) (0 * 10 ^ (0 - Z.min e 0)));
      try done.
    lia.
Qed.

Lemma comparator_symbol `{Host} program recordA recordB :
  Num.eqb (rank program) (Finite 1 0) = true ->
  comparator program recordA recordB
  = match get recordA "symbol" with
    | VStr a => Ok (localeCompare a (ToString (get recordB "symbol")))
    | _ => TypeError
    end.
Proof.
  intros Hr. destruct (eqb_one _ Hr) as [Hs H0].
  unfold comparator. rewrite Hs, H0, Hr.
  unfold get at 1 3 5. rewrite keysMap_symbol. reflexivity.
Qed.

Lemma codeUnitCompare_sign a b :
  signOf (fun a b : string => Ok (codeUnitCompare a b)) a b
  = Some (match String.compare a b with Lt => -1 | Eq => 0 | Gt => 1 end).
Proof. unfold signOf, codeUnitCompare. by destruct (String.compare a b). Qed.

Lemma codeUnitCompare_consistent (l : list string) :
  consistent (fun a b : string => Ok (codeUnitCompare a b)) l.
Proof.
  split.
  - intros a b _ _. rewrite codeUnitCompare_sign. eauto.
  - intros a _. rewrite codeUnitCompare_sign. by rewrite string_compare_refl.
  - intros a b _ _. rewrite !codeUnitCompare_sign.
    destruct (String.compare a b) eqn:E; try discriminate.
    apply String.compare_eq_iff in E. subst. by rewrite string_compare_refl.
  - intros s a b c _ _ _. rewrite !codeUnitCompare_sign.
    destruct (String.compare a b) eqn:Eab; intros [= <-];
      destruct (String.compare b c) eqn:Ebc; intros [=].
    + apply String.compare_eq_iff in Eab. subst. by rewrite Ebc.
    + by rewrite (string_compare_Lt_trans _ _ _ Eab Ebc).
    + apply string_compare_Gt in Eab, Ebc.
      pose proof (string_compare_Lt_trans _ _ _ Ebc Eab) as Hca.
      apply string_compare_Gt in Hca. by rewrite Hca.
Qed.

Lemma Forall2_symbol_of (records : list (gmap string val)) (symbols : list string)
    (record : gmap string val) :
  Forall2 (fun record s => get record "symbol" = VStr s) records symbols ->
  record ∈ records ->
  exists s, s ∈ symbols /\ get record "symbol" = VStr s.
Proof.
  induction 1 as [|r s records symbols Hr _ IH]; intros Hin.
  - by apply elem_of_nil in Hin.
  - apply elem_of_cons in Hin as [->|Hin].
    + exists s. split; [by left|done].
    + destruct (IH Hin) as (s' & Hs' & Hg). exists s'. split; [by right|done].
Qed.

(** X16: with a rank equal to 1 the comparator orders by symbol with
    the host's [localeCompare].  It throws exactly when its first record
    has no string as symbol (the symbol of the second is converted to
    text).  When the collation is a consistent comparator on the
    symbols of the records, the sort stage returns the records permuted
    into ascending order of symbol under that collation. *)
Theorem sort_by_symbol `{Host} (program : options) :
  Num.eqb (rank program) (Finite 1 0) = true ->
  (forall recordA recordB,
     comparator program recordA recordB = TypeError <-> ~ hasSymbol recordA)
  /\ forall records symbols,
       Forall2 (fun record s => get record "symbol" = VStr s) records symbols ->
       consistent (fun a b : string => Ok (localeCompare a b)) symbols ->
       exists sorted,
         sortStage program records = Ok sorted
         /\ records ≡ₚ sorted
         /\ StronglySorted
              (fun a b => exists sa sb,
                            get a "symbol" = VStr sa /\ get b "symbol" = VStr sb
                            /\ Num.sgn (localeCompare sa sb) <= 0)
              sorted.
Proof.
  intros Hr. split.
  - intros recordA recordB. rewrite (comparator_symbol program _ _ Hr).
    unfold hasSymbol.
    destruct (get recordA "symbol") as [| | | |s];
      try (split; [intros _ [s' Hs']; discriminate|done]).
    split; [discriminate|]. intros Hno. destruct Hno. by exists s.
  - intros records symbols Hsym Hcons.
    assert (Hsign : forall a b sa sb,
      get a "symbol" = VStr sa -> get b "symbol" = VStr sb ->
      signOf (comparator program) a b
      = signOf (fun a b : string => Ok (localeCompare a b)) sa sb).
    { intros a b sa sb Ha Hb. unfold signOf.
      rewrite (comparator_symbol program _ _ Hr), Ha, Hb. reflexivity. }
    assert (Hrec : consistent (comparator program) records).
    { split.
      - intros a b Ha Hb.
        destruct (Forall2_symbol_of _ _ a Hsym Ha) as (sa & Hsa & Ea).
        destruct (Forall2_symbol_of _ _ b Hsym Hb) as (sb & Hsb & Eb).
        rewrite (Hsign a b sa sb Ea Eb). by apply (cons_total _ _ Hcons).
      - intros a Ha.
        destruct (Forall2_symbol_of _ _ a Hsym Ha) as (sa & Hsa & Ea).
        rewrite (Hsign a a sa sa Ea Ea). by apply (cons_refl _ _ Hcons).
      - intros a b Ha Hb.
        destruct (Forall2_symbol_of _ _ a Hsym Ha) as (sa & Hsa & Ea).
        destruct (Forall2_symbol_of _ _ b Hsym Hb) as (sb & Hsb & Eb).
        rewrite (Hsign a b sa sb Ea Eb), (Hsign b a sb sa Eb Ea).
        by apply (cons_sym _ _ Hcons).
      - intros s a b c Ha Hb Hc.
        destruct (Forall2_symbol_of _ _ a Hsym Ha) as (sa & Hsa & Ea).
        destruct (Forall2_symbol_of _ _ b Hsym Hb) as (sb & Hsb & Eb).
        destruct (Forall2_symbol_of _ _ c Hsym Hc) as (sc & Hsc & Ec).
        rewrite (Hsign a b sa sb Ea Eb), (Hsign b c sb sc Eb Ec),
          (Hsign a c sa sc Ea Ec).
        by apply (cons_trans _ _ Hcons). }
    destruct (arraySort_sorts _ _ _ Hrec) as (sorted & Hsort & Hperm & Hss).
    exists sorted. split; [exact Hsort|]. split; [exact Hperm|].
    eapply StronglySorted_mono_elem; [|exact Hss].
    intros a b Ha Hb (s & Hs & Hle). rewrite <- Hperm in Ha, Hb.
    destruct (Forall2_symbol_of _ _ a Hsym Ha) as (sa & Hsa & Ea).
    destruct (Forall2_symbol_of _ _ b Hsym Hb) as (sb & Hsb & Eb).
    exists sa, sb. split; [done|]. split; [done|].
    rewrite (Hsign a b sa sb Ea Eb) in Hs. unfold signOf in Hs.
    destruct (Num.isNaN (localeCompare sa sb)); [discriminate|].
    injection Hs as <-. exact Hle.
Qed.

Lemma sort_by_symbol_witness :
  exists sorted,
    sortStage rank1
      [coin "3" "ZCC" "1" "1" "1"; coin "1" "AAA" "1" "1" "1";
       coin "2" "mmm" "1" "1" "1"] = Ok sorted
    /\ [coin "3" "ZCC" "1" "1" "1"; coin "1" "AAA" "1" "1" "1";
        coin "2" "mmm" "1" "1" "1"] ≡ₚ sorted.
Proof.
  destruct (sort_by_symbol rank1 eq_refl) as [_ Hsorted].
  destruct (Hsorted
    [coin "3" "ZCC" "1" "1" "1"; coin "1" "AAA" "1" "1" "1";
     coin "2" "mmm" "1" "1" "1"] ["ZCC"; "AAA"; "mmm"]%string)
    as (sorted & Hs & Hperm & _).
  - repeat constructor.
  - apply codeUnitCompare_consistent.
  - exists sorted. split; [exact Hs|exact Hperm].
Defined.

Example sort_by_symbol_code_units :
  sortStage rank1
    [coin "3" "ZCC" "1" "1" "1"; coin "1" "AAA" "1" "1" "1";
     coin "2" "mmm" "1" "1" "1"]
  = Ok [coin "1" "AAA" "1" "1" "1"; coin "3" "ZCC" "1" "1" "1";
        coin "2" "mmm" "1" "1" "1"].
Proof. vm_compute. reflexivity. Qed.

(** ** The whole callback on V8 *)

Section SortTotal.
Context {A : Type} (cmp : A -> A -> result number) (l : list A).
Hypothesis Htotal : forall a b, a ∈ l -> b ∈ l -> exists n, cmp a b = Ok n.

Lemma Compare_total a b :
  a ∈ l -> b ∈ l -> exists o, V8.Compare cmp a b = Ok o.
Proof.
  intros Ha Hb. destruct (Htotal a b Ha Hb) as [n Hn].
  unfold V8.Compare. rewrite Hn. simpl. eauto.
Qed.

Lemma runLoop_total d rest : forall previous k,
  previous ∈ l -> Forall (.∈ l) rest ->
  exists n, V8.runLoop cmp d previous rest k = Ok n.
Proof.
  induction rest as [|c rest IH]; intros previous k Hp Hall; simpl; [eauto|].
  apply Forall_cons in Hall as [Hc Hall].
  destruct (Compare_total c previous Hc Hp) as [o ->]. simpl.
  destruct (if d then 0 <=? o else o <? 0); eauto.
Qed.

Lemma CountAndMakeRun_total a :
  Forall (.∈ l) a ->
  exists n a', V8.CountAndMakeRun cmp a = Ok (n, a') /\ a ≡ₚ a'.
Proof.
  intros Hall. destruct a as [|x0 [|x1 rest]]; simpl; eauto.
  apply Forall_cons in Hall as [H0 Hall].
  apply Forall_cons in Hall as [H1 Hall].
  destruct (Compare_total x1 x0 H1 H0) as [o ->]. simpl.
  destruct (runLoop_total (o <? 0) rest x1 2 H1 Hall) as [n ->]. simpl.
  eexists _, _. split; [reflexivity|].
  destruct (o <? 0); [|done].
  rewrite reverse_Permutation. by rewrite take_drop.
Qed.

Lemma search_total s pivot :
  pivot ∈ l -> Forall (.∈ l) s ->
  forall fuel left right, exists p, V8.search cmp fuel s pivot left right = Ok p.
Proof.
  intros Hp Hall. induction fuel as [|fuel IH]; intros left right; simpl; [eauto|].
  destruct (left <? right)%nat; [|eauto].
  destruct (s !! (left + Nat.div2 (right - left))%nat) as [x|] eqn:Ex; [|eauto].
  assert (Hx : x ∈ l).
  { rewrite Forall_forall in Hall. apply Hall.
    eapply list_elem_of_lookup_2; eauto. }
  destruct (Compare_total pivot x Hp Hx) as [o ->]. simpl.
  destruct (o <? 0); apply IH.
Qed.

Lemma BinaryInsertionSort_total rest : forall sorted,
  Forall (.∈ l) sorted -> Forall (.∈ l) rest ->
  exists out, V8.BinaryInsertionSort cmp sorted rest = Ok out
              /\ sorted ++ rest ≡ₚ out.
Proof.
  induction rest as [|pivot rest IH]; intros sorted Hs Hr; simpl.
  - exists sorted. by rewrite app_nil_r.
  - apply Forall_cons in Hr as [Hp Hr].
    destruct (search_total sorted pivot Hp Hs (length sorted) 0%nat (length sorted))
      as [p ->]. simpl.
    destruct (IH (take p sorted ++ pivot :: drop p sorted)) as (out & -> & Hperm).
    + apply Forall_app. split; [by apply Forall_take|].
      constructor; [done|by apply Forall_drop].
    + done.
    + exists out. split; [done|]. rewrite <- Hperm.
      rewrite <- (take_drop p sorted) at 1.
      rewrite <- !app_assoc. apply Permutation_app_head.
      simpl. symmetry. apply Permutation_middle.
Qed.

(** Whatever the comparator answers, as long as it answers, the
    modelled sort returns the elements it was given. *)
Lemma ArrayTimSortImpl_total :
  exists l', V8.ArrayTimSortImpl cmp l = Ok l' /\ l ≡ₚ l'.
Proof.
  unfold V8.ArrayTimSortImpl. destruct (length l <? 2)%nat; [eauto|].
  assert (Hall : Forall (.∈ l) l) by (by apply Forall_forall).
  destruct (CountAndMakeRun_total l Hall) as (n & a' & -> & Hperm). simpl.
  assert (Hall' : Forall (.∈ l) a') by (by rewrite <- Hperm).
  destruct (BinaryInsertionSort_total (drop n a') (take n a'))
    as (out & -> & Hperm'); [by apply Forall_take|by apply Forall_drop|].
  exists out. split; [done|]. by rewrite Hperm, <- Hperm', take_drop.
Qed.

End SortTotal.

Lemma comparator_total `{Host} program recordA recordB :
  hasSymbol recordA -> exists n, comparator program recordA recordB = Ok n.
Proof.
  intros [s Hs].
  destruct (Num.eqb (rank program) (Finite 1 0)) eqn:H1.
  - rewrite (comparator_symbol program _ _ H1), Hs. eauto.
  - unfold comparator. rewrite H1.
    destruct (Num.eqb (rank program) (Finite 0 0)
              || negb (truthy (get (keysMap program) (Num.toString (rank program)))));
      eauto.
Qed.

Lemma mapM_total {A B} (f : A -> result B) (l : list A) :
  (forall a, a ∈ l -> exists b, f a = Ok b) ->
  exists out, mapM f l = Ok out /\ Forall2 (fun a b => f a = Ok b) l out.
Proof.
  induction l as [|a l IH]; intros Hf; simpl; [by exists []|].
  destruct (Hf a) as [b Hb]; [by left|].
  destruct IH as (out & Hout & Hall); [intros a' Ha'; apply Hf; by right|].
  rewrite Hb, Hout. simpl. exists (b :: out). split; [done|]. by constructor.
Qed.

Lemma filterM_sublist {A} (p : A -> result bool) (l kept : list A) :
  filterM p l = Ok kept -> kept `sublist_of` l.
Proof.
  revert kept. induction l as [|a l IH]; simpl; intros kept Hk.
  - injection Hk as <-. constructor.
  - destruct (p a) as [b|]; simpl in Hk; [|discriminate].
    destruct (filterM p l) as [rest|]; simpl in Hk; [|discriminate].
    injection Hk as <-. destruct b; constructor; by apply IH.
Qed.

(** X17: on V8, when every record of the response has a string as
    symbol, the callback never ends in the [catch] handler, whatever
    the options: the table gets exactly one row for each record the
    filter keeps, also for the ranks whose comparator is not consistent,
    and the line about no match is printed exactly when the filter
    keeps nothing. *)
Theorem table_has_a_row_per_kept_record
    (program : options) (portfolioCoins : gmap string val)
    (data : list (gmap string val)) :
  (forall record, record ∈ data -> hasSymbol record) ->
  exists kept table,
    filterStage program portfolioCoins data = Ok kept
    /\ rows program portfolioCoins data = Ok table
    /\ length table = length kept
    /\ (respond program portfolioCoins (Some data) = Matches table
        \/ exists line, respond program portfolioCoins (Some data) = NoMatches line)
    /\ ((exists line, respond program portfolioCoins (Some data) = NoMatches line)
        <-> kept = []).
Proof.
  intros Hsym.
  destruct (filterStage program portfolioCoins data) as [kept|] eqn:Hkept.
  2:{ apply filterStage_TypeError in Hkept as (_ & record & Hin & Hno).
      destruct Hno. by apply Hsym. }
  assert (Hkeptsym : forall record, record ∈ kept -> hasSymbol record).
  { intros record Hin. apply Hsym.
    eapply elem_of_sublist; [done|exact (filterM_sublist _ _ _ Hkept)]. }
  destruct (mapM_total (editedRecord program portfolioCoins) kept)
    as (edited & Hed & Hall).
  { intros record Hin. apply editedRecord_total. right. by apply Hkeptsym. }
  assert (Hlen1 : length edited = length kept)
    by (symmetry; eapply Forall2_length; eauto).
  assert (Hfrom : forall e, e ∈ edited ->
            exists record, editedRecord program portfolioCoins record = Ok e
                           /\ hasSymbol record).
  { intros e He. apply list_elem_of_lookup in He as [i Hi].
    destruct (Forall2_lookup_r _ _ _ _ _ Hall Hi) as (record & Hr & Hre).
    exists record. split; [done|]. apply Hkeptsym.
    eapply list_elem_of_lookup_2; eauto. }
  destruct (ArrayTimSortImpl_total (comparator program) edited)
    as (sorted & Hsort & Hperm).
  { intros a b Ha _. apply comparator_total.
    destruct (Hfrom a Ha) as (record & Hr & [s Hs]). exists s.
    apply editedRecord_copied in Hr as (_ & -> & _). done. }
  destruct (sortedColumns_Ok program) as (sc & Hsc & _ & _).
  destruct (mapM_total (values program sc) sorted) as (table & Htable & Hrows).
  { intros e He. rewrite <- Hperm in He.
    destruct (Hfrom e He) as (record & Hr & _).
    destruct (editedRecord_defaultValues _ _ _ _ Hr) as (dv & Hdv & _).
    unfold values. rewrite Hdv. simpl. eauto. }
  assert (Hlen : length table = length kept).
  { rewrite <- Hlen1, (Permutation_length Hperm).
    symmetry. eapply Forall2_length; eauto. }
  assert (Hrowsok : rows program portfolioCoins data = Ok table).
  { unfold rows. rewrite Hsc. simpl. rewrite Hkept. simpl. rewrite Hed. simpl.
    unfold sortStage. simpl. rewrite Hsort. simpl. exact Htable. }
  exists kept, table. split; [done|]. split; [done|]. split; [done|].
  unfold respond. rewrite Hrowsok. split.
  - destruct table; [right; eauto|by left].
  - split.
    + intros [line Hline]. destruct table; [|discriminate].
      by destruct kept.
    + intros ->. destruct table; [eauto|discriminate].
Qed.

Lemma table_has_a_row_per_kept_record_witness :
  exists kept table,
    filterStage
      {| opt_convert := "USD"; opt_find := list_ "eth"; opt_top := Num.ofZ 10;
         opt_portfolio := VUndefined; opt_specific := [];
         opt_rank := Num.ofZ 0 |} ∅
      [coin "1" "BTC" "100" "1" "5"; coin "2" "ETH" "10" "1" "4"] = Ok kept
    /\ rows
         {| opt_convert := "USD"; opt_find := list_ "eth"; opt_top := Num.ofZ 10;
            opt_portfolio := VUndefined; opt_specific := [];
            opt_rank := Num.ofZ 0 |} ∅
         [coin "1" "BTC" "100" "1" "5"; coin "2" "ETH" "10" "1" "4"] = Ok table
    /\ length table = length kept.
Proof.
  destruct (table_has_a_row_per_kept_record
    {| opt_convert := "USD"; opt_find := list_ "eth"; opt_top := Num.ofZ 10;
       opt_portfolio := VUndefined; opt_specific := [];
       opt_rank := Num.ofZ 0 |} ∅
    [coin "1" "BTC" "100" "1" "5"; coin "2" "ETH" "10" "1" "4"])
    as (kept & table & Hk & Ht & Hlen & _).
  - intros record Hr.
    apply elem_of_cons in Hr as [->|Hr]; [eexists; vm_compute; reflexivity|].
    apply elem_of_cons in Hr as [->|Hr]; [eexists; vm_compute; reflexivity|].
    by apply elem_of_nil in Hr.
  - exists kept, table. split; [exact Hk|]. split; [exact Ht|exact Hlen].
Defined.
